(** * graft: the log store of the leader-election engine

  A shallow embedding of [default_log.go], [log.go] and the [TestLog] of
  the test suite, together with the parts of the Go runtime they call:
  a flat file system ([os], [io/ioutil]), [crypto/sha1], [encoding/base64],
  [unicode/utf8] and [encoding/json] for the two persisted structs.

  Conventions.  A Go [uint64] is an [N] below [2^64]; a Go [string] is a
  [string] (any byte sequence); a Go [[]byte] is a [slice]: [None] is the
  nil slice, [Some l] a non-nil one.  A Go [error] result is an
  [option error], [None] being nil.  Functions that touch the file
  system take it as an argument and return the new one. *)

From Stdlib Require Import NArith Ascii String List Bool Lia.
From Stdlib Require Import DecimalString DecimalN.
From Stdlib Require DecimalFacts.
From stdpp Require Import base option gmap strings list.

Local Open Scope N_scope.
Local Open Scope list_scope.

(* ===================================================================== *)
(** ** Bytes, slices and results                                          *)
(* ===================================================================== *)

Abbreviation byte := ascii (only parsing).
Abbreviation bytes := (list ascii) (only parsing).
Abbreviation slice := (option (list ascii)) (only parsing).
Abbreviation uint64 := N (only parsing).

Definition uint64_max : N := 18446744073709551615.

(** The bytes of a slice; nil has none. *)
Definition slice_data (s : slice) : bytes :=
  match s with Some l => l | None => [] end.

(** [bytes.Equal]: nil and empty are equal. *)
Definition bytes_Equal (a b : slice) : bool :=
  bool_decide (slice_data a = slice_data b).

(** The bytes of a string literal. *)
Definition B (s : string) : bytes := list_ascii_of_string s.

Definition byte_val (c : byte) : N := N_of_ascii c.
Definition byte_of (n : N) : byte := ascii_of_N n.

Definition dquote : byte := "034"%char.
Definition bslash : byte := "092"%char.

(* ===================================================================== *)
(** ** Errors                                                             *)
(* ===================================================================== *)

Inductive Errno := ENOENT.

(** Modelled from the spec: [errors.go] is not among the sources.  Section 7
  of the specification lists [LogNoStateErr] and [LogCorruptErr] as error
  kinds that a caller can tell apart from each other and from any other
  error; each is a constructor here.  The remaining constructors are the
  errors of the Go packages the log calls: [*os.PathError],
  [*json.SyntaxError], [*json.UnmarshalTypeError] and
  [base64.CorruptInputError]. *)
Inductive error :=
  | LogNoStateErr
  | LogCorruptErr
  | PathError (op : string) (path : string) (errno : Errno)
  | SyntaxError
  | UnmarshalTypeError
  | CorruptInputError.

Global Instance Errno_eq_dec : EqDecision Errno.
Proof. solve_decision. Defined.
Global Instance error_eq_dec : EqDecision error.
Proof. solve_decision. Defined.

Inductive result (A : Type) :=
  | Ok (a : A)
  | Err (e : error).
Arguments Ok {A} a.
Arguments Err {A} e.

(* ===================================================================== *)
(** ** The file system                                                    *)
(* ===================================================================== *)

(** A flat name space of regular files.  The empty name names no file:
  every system call on it fails with ENOENT.  Permission bits, directories
  and full disks are outside the model, so a write to a non-empty name
  succeeds.  A file is known by the spelling of its name only: nothing is
  stated below about a name other than a log's own path, since two
  spellings may name one file. *)
Module os.

Abbreviation FS := (gmap string (list ascii)) (only parsing).

(** The file a name refers to, if any. *)
Definition file (name : string) (fs : FS) : option (list ascii) :=
  if decide (name = EmptyString) then None else fs !! name.

(** [os.Remove]. *)
Definition Remove (name : string) (fs : FS) : option error * FS :=
  match file name fs with
  | Some _ => (None, delete name fs)
  | None => (Some (PathError "remove" name ENOENT), fs)
  end.

(** [ioutil.ReadFile]: the contents, as a non-nil slice, or the error. *)
Definition ReadFile (name : string) (fs : FS) : result (list ascii) :=
  match file name fs with
  | Some data => Ok data
  | None => Err (PathError "open" name ENOENT)
  end.

(** [ioutil.WriteFile]: creates or truncates the file. *)
Definition WriteFile (name : string) (data : list ascii) (fs : FS) : option error * FS :=
  if decide (name = EmptyString) then (Some (PathError "open" name ENOENT), fs)
  else (None, <[name := data]> fs).

End os.

(* ===================================================================== *)
(** ** crypto/sha1                                                        *)
(* ===================================================================== *)

Module sha1.

Definition mask32 : N := 4294967295.

Definition add32 (a b : N) : N := (a + b) mod 4294967296.
Definition rotl32 (x n : N) : N :=
  N.lor (N.land (N.shiftl x n) mask32) (N.shiftr x (32 - n)).
Definition not32 (x : N) : N := N.lxor x mask32.

(** Big-endian bytes of a word: [k] bytes, most significant first. *)
Fixpoint be_bytes (k : nat) (x : N) : list N :=
  match k with
  | O => []
  | S k' => (N.shiftr x (8 * N.of_nat k')) mod 256 :: be_bytes k' x
  end.

Definition be_word (l : list N) : N :=
  fold_left (fun acc b => acc * 256 + b) l 0.

(** Message padding: 0x80, zeros up to 56 modulo 64, the bit length. *)
Definition pad (msg : list N) : list N :=
  let len := N.of_nat (length msg) in
  let zeros := N.to_nat ((64 - (len + 9) mod 64) mod 64) in
  msg ++ 128 :: repeat 0 zeros ++ be_bytes 8 ((len * 8) mod 18446744073709551616).

Fixpoint chunks {A} (count size : nat) (l : list A) : list (list A) :=
  match count with
  | O => []
  | S c => firstn size l :: chunks c size (skipn size l)
  end.

(** The 80-word message schedule of a block. *)
Fixpoint extend (k : nat) (w : list N) : list N :=
  match k with
  | O => w
  | S k' =>
      let n := length w in
      let at_ i := nth (n - i) w 0 in
      extend k' (w ++ [rotl32 (N.lxor (N.lxor (at_ 3%nat) (at_ 8%nat))
                                      (N.lxor (at_ 14%nat) (at_ 16%nat))) 1])
  end.

Definition schedule (block : list N) : list N :=
  extend 64 (map be_word (chunks 16 4 block)).

Definition state : Type := N * N * N * N * N.
Definition init : state :=
  (1732584193, 4023233417, 2562383102, 271733878, 3285377520).

Definition round (i : nat) (wi : N) (s : state) : state :=
  let '(a, b, c, d, e) := s in
  let '(f, k) :=
    if (i <? 20)%nat then (N.lor (N.land b c) (N.land (not32 b) d), 1518500249)
    else if (i <? 40)%nat then (N.lxor (N.lxor b c) d, 1859775393)
    else if (i <? 60)%nat then
      (N.lor (N.lor (N.land b c) (N.land b d)) (N.land c d), 2400959708)
    else (N.lxor (N.lxor b c) d, 3395469782) in
  let t := add32 (add32 (add32 (add32 (rotl32 a 5) f) e) wi) k in
  (t, a, rotl32 b 30, c, d).

Fixpoint rounds (i : nat) (w : list N) (s : state) : state :=
  match w with
  | [] => s
  | wi :: w' => rounds (S i) w' (round i wi s)
  end.

Definition block (s : state) (blk : list N) : state :=
  let '(h0, h1, h2, h3, h4) := s in
  let '(a, b, c, d, e) := rounds 0 (schedule blk) s in
  (add32 h0 a, add32 h1 b, add32 h2 c, add32 h3 d, add32 h4 e).

(** The 20-byte digest of a message. *)
Definition checkSum (msg : bytes) : bytes :=
  let p := pad (map byte_val msg) in
  let '(h0, h1, h2, h3, h4) :=
    fold_left block (chunks (length p / 64) 64 p) init in
  map byte_of (be_bytes 4 h0 ++ be_bytes 4 h1 ++ be_bytes 4 h2
               ++ be_bytes 4 h3 ++ be_bytes 4 h4).

(** A running hash: the bytes written so far. *)
Record digest := { written : bytes }.

(** [sha1.New]. *)
Definition New : digest := {| written := [] |}.

(** [hash.Hash.Sum]: appends the hash of what was written to [b];
    [b] itself is not hashed. *)
Definition Sum (d : digest) (b : slice) : slice :=
  Some (slice_data b ++ checkSum (written d)).

End sha1.

(* ===================================================================== *)
(** ** encoding/base64 (StdEncoding)                                      *)
(* ===================================================================== *)

Module base64.

Definition encodeStd : string :=
  "ABCDEFGHIJKLMNOPQRSTUVWXYZabcdefghijklmnopqrstuvwxyz0123456789+/".

Definition padChar : byte := "="%char.

(** The character of a 6-bit value. *)
Definition enc_char (i : byte) : byte :=
  nth (nat_of_ascii i) (B encodeStd) padChar.

Fixpoint index_of (c : byte) (l : bytes) (i : N) : option byte :=
  match l with
  | [] => None
  | x :: l' => if Ascii.eqb x c then Some (byte_of i) else index_of c l' (i + 1)
  end.

(** The 6-bit value of a character of the alphabet ([decodeMap]). *)
Definition dec_char (c : byte) : option byte := index_of c (B encodeStd) 0.

(** The four 6-bit groups of three bytes [a b c], on the bits of the
    bytes (least significant first in [Ascii]):
    [a >> 2], [(a & 3) << 4 | b >> 4], [(b & 15) << 2 | c >> 6], [c & 63]. *)
Definition sext1 (a : byte) : byte :=
  let 'Ascii _ _ a2 a3 a4 a5 a6 a7 := a in Ascii a2 a3 a4 a5 a6 a7 false false.
Definition sext2 (a b : byte) : byte :=
  let 'Ascii a0 a1 _ _ _ _ _ _ := a in
  let 'Ascii _ _ _ _ b4 b5 b6 b7 := b in Ascii b4 b5 b6 b7 a0 a1 false false.
Definition sext3 (b c : byte) : byte :=
  let 'Ascii b0 b1 b2 b3 _ _ _ _ := b in
  let 'Ascii _ _ _ _ _ _ c6 c7 := c in Ascii c6 c7 b0 b1 b2 b3 false false.
Definition sext4 (c : byte) : byte :=
  let 'Ascii c0 c1 c2 c3 c4 c5 _ _ := c in Ascii c0 c1 c2 c3 c4 c5 false false.

(** [EncodeToString]: full groups of three bytes, then a padded rest. *)
Fixpoint EncodeToString (src : bytes) : bytes :=
  match src with
  | [] => []
  | [a] => [enc_char (sext1 a); enc_char (sext2 a zero); padChar; padChar]
  | [a; b] =>
      [enc_char (sext1 a); enc_char (sext2 a b); enc_char (sext3 b zero); padChar]
  | a :: b :: c :: rest =>
      enc_char (sext1 a) :: enc_char (sext2 a b) :: enc_char (sext3 b c)
        :: enc_char (sext4 c) :: EncodeToString rest
  end.

(** The bytes of 6-bit values [i1 i2 i3 i4]:
    [i1 << 2 | i2 >> 4], [i2 << 4 | i3 >> 2], [i3 << 6 | i4]. *)
Definition out1 (i1 i2 : byte) : byte :=
  let 'Ascii x0 x1 x2 x3 x4 x5 _ _ := i1 in
  let 'Ascii _ _ _ _ y4 y5 _ _ := i2 in Ascii y4 y5 x0 x1 x2 x3 x4 x5.
Definition out2 (i2 i3 : byte) : byte :=
  let 'Ascii y0 y1 y2 y3 _ _ _ _ := i2 in
  let 'Ascii _ _ z2 z3 z4 z5 _ _ := i3 in Ascii z2 z3 z4 z5 y0 y1 y2 y3.
Definition out3 (i3 i4 : byte) : byte :=
  let 'Ascii z0 z1 _ _ _ _ _ _ := i3 in
  let 'Ascii w0 w1 w2 w3 w4 w5 _ _ := i4 in Ascii w0 w1 w2 w3 w4 w5 z0 z1.

Definition is_newline (c : byte) : bool :=
  Ascii.eqb c "010"%char || Ascii.eqb c "013"%char.

(** Quanta of four characters.  Padding may only close the input; an
    incomplete last quantum is an error; the unused low bits of a padded
    quantum are not checked (the encoding is not strict). *)
Fixpoint decode_quanta (s : bytes) : option bytes :=
  match s with
  | [] => Some []
  | c1 :: c2 :: c3 :: c4 :: rest =>
      match dec_char c1, dec_char c2 with
      | Some i1, Some i2 =>
          match dec_char c3 with
          | Some i3 =>
              match dec_char c4 with
              | Some i4 =>
                  match decode_quanta rest with
                  | Some r => Some (out1 i1 i2 :: out2 i2 i3 :: out3 i3 i4 :: r)
                  | None => None
                  end
              | None =>
                  if Ascii.eqb c4 padChar && bool_decide (rest = [])
                  then Some [out1 i1 i2; out2 i2 i3] else None
              end
          | None =>
              if Ascii.eqb c3 padChar && Ascii.eqb c4 padChar && bool_decide (rest = [])
              then Some [out1 i1 i2] else None
          end
      | _, _ => None
      end
  | _ => None
  end.

(** [DecodeString]: carriage returns and line feeds are skipped. *)
Definition DecodeString (s : bytes) : result bytes :=
  match decode_quanta (filter (fun c => is_newline c = false) s) with
  | Some b => Ok b
  | None => Err CorruptInputError
  end.

End base64.

(* ===================================================================== *)
(** ** unicode/utf8 and unicode/utf16                                     *)
(* ===================================================================== *)

Module utf8.

Definition RuneError : N := 65533.
Definition RuneSelf : N := 128.
Definition MaxRune : N := 1114111.

Definition in_range (lo hi : N) (c : byte) : bool :=
  (lo <=? byte_val c) && (byte_val c <=? hi).

(** A continuation byte, 0x80..0xBF. *)
Definition cont (c : byte) : bool := in_range 128 191 c.

(** The range accepted for the second byte after leading byte [x]
    ([acceptRanges]): no overlong forms, no surrogates, nothing above
    [MaxRune]. *)
Definition second_lo (x : N) : N :=
  if x =? 224 then 160 else if x =? 240 then 144 else 128.
Definition second_hi (x : N) : N :=
  if x =? 237 then 159 else if x =? 244 then 143 else 191.

(** [DecodeRune]: the first rune of [p] and its width in bytes; an
    invalid or truncated encoding gives [(RuneError, 1)], an empty input
    [(RuneError, 0)]. *)
Definition DecodeRune (p : bytes) : N * nat :=
  match p with
  | [] => (RuneError, 0%nat)
  | b0 :: p1 =>
      let x := byte_val b0 in
      if x <? RuneSelf then (x, 1%nat)
      else if in_range 194 223 b0 then
        match p1 with
        | b1 :: _ =>
            if cont b1 then ((x - 192) * 64 + (byte_val b1 - 128), 2%nat)
            else (RuneError, 1%nat)
        | _ => (RuneError, 1%nat)
        end
      else if in_range 224 239 b0 then
        match p1 with
        | b1 :: b2 :: _ =>
            if in_range (second_lo x) (second_hi x) b1 && cont b2 then
              ((x - 224) * 4096 + (byte_val b1 - 128) * 64 + (byte_val b2 - 128), 3%nat)
            else (RuneError, 1%nat)
        | _ => (RuneError, 1%nat)
        end
      else if in_range 240 244 b0 then
        match p1 with
        | b1 :: b2 :: b3 :: _ =>
            if in_range (second_lo x) (second_hi x) b1 && cont b2 && cont b3 then
              ((x - 240) * 262144 + (byte_val b1 - 128) * 4096
               + (byte_val b2 - 128) * 64 + (byte_val b3 - 128), 4%nat)
            else (RuneError, 1%nat)
        | _ => (RuneError, 1%nat)
        end
      else (RuneError, 1%nat)
  end.

(** [EncodeRune] / [AppendRune]: surrogates and runes above [MaxRune] are
    written as [RuneError]. *)
Definition EncodeRune (r : N) : bytes :=
  let r := if (MaxRune <? r) || ((55296 <=? r) && (r <=? 57343)) then RuneError else r in
  if r <? 128 then [byte_of r]
  else if r <? 2048 then [byte_of (192 + r / 64); byte_of (128 + r mod 64)]
  else if r <? 65536 then
    [byte_of (224 + r / 4096); byte_of (128 + (r / 64) mod 64); byte_of (128 + r mod 64)]
  else
    [byte_of (240 + r / 262144); byte_of (128 + (r / 4096) mod 64);
     byte_of (128 + (r / 64) mod 64); byte_of (128 + r mod 64)].

(** [Valid]: the bytes are a sequence of well-formed encodings. *)
Fixpoint Valid_from (skip : nat) (p : bytes) : bool :=
  match p with
  | [] => true
  | _ :: p' =>
      match skip with
      | S k => Valid_from k p'
      | O =>
          let '(r, size) := DecodeRune p in
          if (r =? RuneError) && (size =? 1)%nat then false
          else Valid_from (size - 1) p'
      end
  end.

Definition Valid (p : bytes) : bool := Valid_from 0 p.

End utf8.

Module utf16.

(** [utf16.DecodeRune]: the rune of a surrogate pair, [RuneError] when
    the two halves are not a high and a low surrogate. *)
Definition DecodeRune (r1 r2 : N) : N :=
  if (55296 <=? r1) && (r1 <? 56320) && (56320 <=? r2) && (r2 <? 57344)
  then (r1 - 55296) * 1024 + (r2 - 56320) + 65536
  else utf8.RuneError.

Definition IsSurrogate (r : N) : bool := (55296 <=? r) && (r <? 57344).

End utf16.

(* ===================================================================== *)
(** ** The persisted structs of default_log.go                            *)
(* ===================================================================== *)

Record envelope := { SHA : slice; Data : slice }.

Record persistentState := { CurrentTerm : uint64; VotedFor : string }.

(* ===================================================================== *)
(** ** encoding/json, for [envelope] and [persistentState]                *)
(* ===================================================================== *)

Module json.

(** *** Marshal *)

Definition hex : string := "0123456789abcdef".
Definition hex_char (n : N) : byte := nth (N.to_nat n) (B hex) zero.

(** [htmlSafeSet]: printable ASCII and DEL, without the quote, the
    backslash and the three characters escaped for HTML. *)
Definition htmlSafe (b : byte) : bool :=
  (32 <=? byte_val b) && (byte_val b <? 128)
  && negb (Ascii.eqb b dquote) && negb (Ascii.eqb b bslash)
  && negb (Ascii.eqb b "&") && negb (Ascii.eqb b "<") && negb (Ascii.eqb b ">").

(** What [appendString] writes for a byte below [utf8.RuneSelf]. *)
Definition escape_ascii (b : byte) : bytes :=
  if htmlSafe b then [b]
  else if Ascii.eqb b bslash || Ascii.eqb b dquote then [bslash; b]
  else if Ascii.eqb b "008" then B "\b"
  else if Ascii.eqb b "012" then B "\f"
  else if Ascii.eqb b "010" then B "\n"
  else if Ascii.eqb b "013" then B "\r"
  else if Ascii.eqb b "009" then B "\t"
  else B "\u00" ++ [hex_char (byte_val b / 16); hex_char (byte_val b mod 16)].

(** The loop of [appendString] (with [escapeHTML]): [skip] counts the
    bytes of a rune already written.  An invalid byte becomes the escape
    of U+FFFD; U+2028 and U+2029 are escaped; any other rune is copied. *)
Fixpoint appendString_loop (skip : nat) (src : bytes) : bytes :=
  match src with
  | [] => []
  | b :: rest =>
      match skip with
      | S k => appendString_loop k rest
      | O =>
          if byte_val b <? utf8.RuneSelf then escape_ascii b ++ appendString_loop 0 rest
          else
            let '(c, size) := utf8.DecodeRune src in
            if (c =? utf8.RuneError) && (size =? 1)%nat then
              B "\ufffd" ++ appendString_loop 0 rest
            else if (c =? 8232) || (c =? 8233) then
              B "\u202" ++ hex_char (c mod 16) :: appendString_loop (size - 1) rest
            else firstn size src ++ appendString_loop (size - 1) rest
      end
  end.

Definition appendString (src : bytes) : bytes :=
  dquote :: appendString_loop 0 src ++ [dquote].

(** [strconv.AppendUint] in base 10. *)
Definition appendUint (n : N) : bytes := B (NilZero.string_of_uint (N.to_uint n)).

(** A [[]byte] value: [null] when nil, else the base64 text in quotes. *)
Definition appendBytes (s : slice) : bytes :=
  match s with
  | None => B "null"
  | Some l => dquote :: base64.EncodeToString l ++ [dquote]
  end.

Definition field_name (name : string) : bytes := dquote :: B name ++ [dquote; ":"%char].

(** [json.Marshal] of a [persistentState]; it has no error case. *)
Definition Marshal_persistentState (ps : persistentState) : result bytes :=
  Ok ("{"%char :: field_name "CurrentTerm" ++ appendUint (CurrentTerm ps)
      ++ ","%char :: field_name "VotedFor" ++ appendString (B (VotedFor ps))
      ++ ["}"%char]).

(** [json.Marshal] of an [envelope]; it has no error case. *)
Definition Marshal_envelope (env : envelope) : result bytes :=
  Ok ("{"%char :: field_name "SHA" ++ appendBytes (SHA env)
      ++ ","%char :: field_name "Data" ++ appendBytes (Data env)
      ++ ["}"%char]).

(** *** The values of a document *)

#[local] Unset Elimination Schemes.
Inductive value :=
  | JNull
  | JBool (b : bool)
  | JNumber (lit : bytes)
  | JString (s : bytes)
  | JArray (l : list value)
  | JObject (members : list (bytes * value)).
#[local] Set Elimination Schemes.

(** *** Scanning *)

Definition is_space (c : byte) : bool :=
  Ascii.eqb c " " || Ascii.eqb c "009" || Ascii.eqb c "013" || Ascii.eqb c "010".

Fixpoint skip_ws (s : bytes) : bytes :=
  match s with
  | c :: s' => if is_space c then skip_ws s' else s
  | [] => []
  end.

Definition is_digit (c : byte) : bool := (48 <=? byte_val c) && (byte_val c <=? 57).

Fixpoint span_digits (s : bytes) : bytes * bytes :=
  match s with
  | c :: s' =>
      if is_digit c then let '(ds, r) := span_digits s' in (c :: ds, r) else ([], s)
  | [] => ([], [])
  end.

(** At least one digit. *)
Definition digits1 (s : bytes) : option (bytes * bytes) :=
  match span_digits s with
  | ([], _) => None
  | (ds, r) => Some (ds, r)
  end.

(** The fraction and exponent that may follow the integer part. *)
Definition scan_frac (s : bytes) : option (bytes * bytes) :=
  match s with
  | c :: s' =>
      if Ascii.eqb c "." then
        match digits1 s' with
        | Some (ds, r) => Some (c :: ds, r)
        | None => None
        end
      else Some ([], s)
  | [] => Some ([], [])
  end.

Definition scan_exp (s : bytes) : option (bytes * bytes) :=
  match s with
  | c :: s' =>
      if Ascii.eqb c "e" || Ascii.eqb c "E" then
        let '(sign, s'') :=
          match s' with
          | g :: t => if Ascii.eqb g "+" || Ascii.eqb g "-" then ([g], t) else ([], s')
          | [] => ([], [])
          end in
        match digits1 s'' with
        | Some (ds, r) => Some (c :: sign ++ ds, r)
        | None => None
        end
      else Some ([], s)
  | [] => Some ([], [])
  end.

Definition scan_int (s : bytes) : option (bytes * bytes) :=
  match s with
  | c :: s' =>
      if Ascii.eqb c "0" then Some ([c], s')
      else if is_digit c then let '(ds, r) := span_digits s' in Some (c :: ds, r)
      else None
  | [] => None
  end.

(** A number literal: [-? int frac? exp?]; the literal and what follows. *)
Definition scan_number (s : bytes) : option (bytes * bytes) :=
  let '(sign, s1) :=
    match s with
    | c :: s' => if Ascii.eqb c "-" then ([c], s') else ([], s)
    | [] => ([], [])
    end in
  match scan_int s1 with
  | Some (i, s2) =>
      match scan_frac s2 with
      | Some (f, s3) =>
          match scan_exp s3 with
          | Some (e, s4) => Some (sign ++ i ++ f ++ e, s4)
          | None => None
          end
      | None => None
      end
  | None => None
  end.

Definition hexval (c : byte) : option N :=
  let x := byte_val c in
  if (48 <=? x) && (x <=? 57) then Some (x - 48)
  else if (97 <=? x) && (x <=? 102) then Some (x - 87)
  else if (65 <=? x) && (x <=? 70) then Some (x - 55)
  else None.

(** [getu4]: the rune of four hexadecimal digits. *)
Definition hex4 (h1 h2 h3 h4 : byte) : option N :=
  match hexval h1, hexval h2, hexval h3, hexval h4 with
  | Some a, Some b, Some c, Some d => Some (((a * 16 + b) * 16 + c) * 16 + d)
  | _, _, _, _ => None
  end.

(** The byte of a one-letter escape. *)
Definition simple_escape (e : byte) : option byte :=
  if Ascii.eqb e dquote || Ascii.eqb e bslash || Ascii.eqb e "/" then Some e
  else if Ascii.eqb e "b" then Some "008"%char
  else if Ascii.eqb e "f" then Some "012"%char
  else if Ascii.eqb e "n" then Some "010"%char
  else if Ascii.eqb e "r" then Some "013"%char
  else if Ascii.eqb e "t" then Some "009"%char
  else None.

Definition prepend (pre : bytes) (r : option (bytes * bytes)) : option (bytes * bytes) :=
  match r with
  | Some (str, rest) => Some (pre ++ str, rest)
  | None => None
  end.

(** A string literal after its opening quote: the unquoted bytes and what
    follows the closing quote.  The scanner refuses control characters,
    unknown escapes and an unfinished literal; [unquote] turns escapes
    into bytes, a surrogate pair into its rune, a lone surrogate and any
    byte that is not well-formed UTF-8 into U+FFFD.  [skip] counts the
    bytes of a rune already read. *)
Fixpoint parse_string (skip : nat) (s : bytes) : option (bytes * bytes) :=
  match s with
  | [] => None
  | c :: s1 =>
      match skip with
      | S k => parse_string k s1
      | O =>
          if Ascii.eqb c dquote then Some ([], s1)
          else if Ascii.eqb c bslash then
            match s1 with
            | [] => None
            | e :: s2 =>
                if Ascii.eqb e "u" then
                  match s2 with
                  | h1 :: h2 :: h3 :: h4 :: s3 =>
                      match hex4 h1 h2 h3 h4 with
                      | None => None
                      | Some rr =>
                          if utf16.IsSurrogate rr then
                            match s3 with
                            | b' :: u' :: g1 :: g2 :: g3 :: g4 :: s4 =>
                                match (if Ascii.eqb b' bslash && Ascii.eqb u' "u"
                                       then hex4 g1 g2 g3 g4 else None) with
                                | Some rr1 =>
                                    let dec := utf16.DecodeRune rr rr1 in
                                    if dec =? utf8.RuneError
                                    then prepend (utf8.EncodeRune utf8.RuneError)
                                           (parse_string 0 s3)
                                    else prepend (utf8.EncodeRune dec) (parse_string 0 s4)
                                | None =>
                                    prepend (utf8.EncodeRune utf8.RuneError)
                                      (parse_string 0 s3)
                                end
                            | _ => prepend (utf8.EncodeRune utf8.RuneError) (parse_string 0 s3)
                            end
                          else prepend (utf8.EncodeRune rr) (parse_string 0 s3)
                      end
                  | _ => None
                  end
                else
                  match simple_escape e with
                  | Some b => prepend [b] (parse_string 0 s2)
                  | None => None
                  end
            end
          else if byte_val c <? 32 then None
          else if byte_val c <? utf8.RuneSelf then prepend [c] (parse_string 0 s1)
          else
            let '(rr, size) := utf8.DecodeRune s in
            prepend (utf8.EncodeRune rr) (parse_string (size - 1) s1)
      end
  end.

Definition maxNestingDepth : N := 10000.

Definition literal (word : string) (v : value) (s : bytes) : option (value * bytes) :=
  let w := B word in
  if bool_decide (firstn (length w) s = w) then Some (v, skipn (length w) s) else None.

(** A value at the head of [s] (no leading space), inside [depth] open
    arrays and objects; [fuel] bounds the number of nested calls. *)
Fixpoint parse_value (fuel : nat) (depth : N) (s : bytes) {struct fuel}
  : option (value * bytes) :=
  match fuel with
  | O => None
  | S f =>
      match s with
      | [] => None
      | c :: s1 =>
          if Ascii.eqb c "{" then
            if maxNestingDepth <=? depth then None
            else
              match skip_ws s1 with
              | [] => None
              | c' :: s2 =>
                  if Ascii.eqb c' "}" then Some (JObject [], s2)
                  else
                    match parse_members f (depth + 1) (c' :: s2) with
                    | Some (ms, r) => Some (JObject ms, r)
                    | None => None
                    end
              end
          else if Ascii.eqb c "[" then
            if maxNestingDepth <=? depth then None
            else
              match skip_ws s1 with
              | [] => None
              | c' :: s2 =>
                  if Ascii.eqb c' "]" then Some (JArray [], s2)
                  else
                    match parse_elements f (depth + 1) (c' :: s2) with
                    | Some (vs, r) => Some (JArray vs, r)
                    | None => None
                    end
              end
          else if Ascii.eqb c dquote then
            match parse_string 0 s1 with
            | Some (str, r) => Some (JString str, r)
            | None => None
            end
          else if Ascii.eqb c "t" then literal "true" (JBool true) s
          else if Ascii.eqb c "f" then literal "false" (JBool false) s
          else if Ascii.eqb c "n" then literal "null" JNull s
          else
            match scan_number s with
            | Some (lit, r) => Some (JNumber lit, r)
            | None => None
            end
      end
  end

(** The members of an object, from the quote of a key to the closing
    brace. *)
with parse_members (fuel : nat) (depth : N) (s : bytes) {struct fuel}
  : option (list (bytes * value) * bytes) :=
  match fuel with
  | O => None
  | S f =>
      match s with
      | [] => None
      | q :: s1 =>
          if Ascii.eqb q dquote then
            match parse_string 0 s1 with
            | None => None
            | Some (key, s2) =>
                match skip_ws s2 with
                | [] => None
                | colon :: s3 =>
                    if Ascii.eqb colon ":" then
                      match parse_value f depth (skip_ws s3) with
                      | None => None
                      | Some (v, s4) =>
                          match skip_ws s4 with
                          | [] => None
                          | d :: s5 =>
                              if Ascii.eqb d "," then
                                match parse_members f depth (skip_ws s5) with
                                | Some (ms, r) => Some ((key, v) :: ms, r)
                                | None => None
                                end
                              else if Ascii.eqb d "}" then Some ([(key, v)], s5)
                              else None
                          end
                      end
                    else None
                end
            end
          else None
      end
  end

(** The elements of an array, from the first element to the closing
    bracket. *)
with parse_elements (fuel : nat) (depth : N) (s : bytes) {struct fuel}
  : option (list value * bytes) :=
  match fuel with
  | O => None
  | S f =>
      match parse_value f depth s with
      | None => None
      | Some (v, s1) =>
          match skip_ws s1 with
          | [] => None
          | d :: s2 =>
              if Ascii.eqb d "," then
                match parse_elements f depth (skip_ws s2) with
                | Some (vs, r) => Some (v :: vs, r)
                | None => None
                end
              else if Ascii.eqb d "]" then Some ([v], s2)
              else None
          end
      end
  end.

(** [checkValid] and the reading of the document: one value, with space
    allowed around it.  The fuel is never the limit: a value of [n] bytes
    is read with fuel [n], its elements or members, up to the closing
    bracket, with one less. *)
Definition parse (data : bytes) : option value :=
  match parse_value (S (length data)) 0 (skip_ws data) with
  | Some (v, r) => match skip_ws r with [] => Some v | _ => None end
  | None => None
  end.

(** *** Unmarshal *)

(** [d.saveError]: the first error is the one reported; decoding goes on. *)
Definition saveError (saved e : option error) : option error :=
  match saved with Some _ => saved | None => e end.

(** [strconv.ParseUint] in base 10, with the largest value allowed. *)
Definition ParseUint (lit : bytes) (max : N) : option N :=
  match NilZero.uint_of_string (string_of_list_ascii lit) with
  | Some d => let n := N.of_uint d in if n <=? max then Some n else None
  | None => None
  end.

(** The folded form of a key: a field is found by its exact name or by a
    name equal under simple case folding.  The field names here are ASCII,
    so folding matters on ASCII letters and on the two other runes that
    fold to an ASCII letter, U+017F (to S) and U+212A (to K). *)
Fixpoint foldName (k : bytes) : bytes :=
  match k with
  | [] => []
  | c :: k' =>
      let x := byte_val c in
      let other :=
        (if (97 <=? x) && (x <=? 122) then byte_of (x - 32) else c) :: foldName k' in
      match k' with
      | c1 :: k1 =>
          if (x =? 197) && (byte_val c1 =? 191) then "S"%char :: foldName k1
          else
            match k1 with
            | c2 :: k2 =>
                if (x =? 226) && (byte_val c1 =? 132) && (byte_val c2 =? 170)
                then "K"%char :: foldName k2
                else other
            | [] => other
            end
      | [] => other
      end
  end.

Definition key_is (key : bytes) (name : string) : bool :=
  bool_decide (foldName key = foldName (B name)).

(** A value into a [uint64] field: the field and the error, if any. *)
Definition decode_uint64 (v : value) (old : uint64) : uint64 * option error :=
  match v with
  | JNull => (old, None)
  | JNumber lit =>
      match ParseUint lit uint64_max with
      | Some n => (n, None)
      | None => (old, Some UnmarshalTypeError)
      end
  | _ => (old, Some UnmarshalTypeError)
  end.

(** A value into a [string] field. *)
Definition decode_string (v : value) (old : string) : string * option error :=
  match v with
  | JNull => (old, None)
  | JString s => (string_of_list_ascii s, None)
  | _ => (old, Some UnmarshalTypeError)
  end.

(** The elements of an array into the bytes of a slice: element [i] is
    decoded over [old !! i], or over zero past the end of [old]. *)
Fixpoint decode_byte_elements (vs : list value) (old : bytes) : bytes * option error :=
  match vs with
  | [] => ([], None)
  | v :: vs' =>
      let o := match old with c :: _ => c | [] => zero end in
      let '(b, e) :=
        match v with
        | JNull => (o, None)
        | JNumber lit =>
            match ParseUint lit 255 with
            | Some n => (byte_of n, None)
            | None => (o, Some UnmarshalTypeError)
            end
        | _ => (o, Some UnmarshalTypeError)
        end in
      let '(bs, e') := decode_byte_elements vs' (tail old) in
      (b :: bs, saveError e e')
  end.

(** A value into a [[]byte] field: [null] makes it nil, a string is
    base64 text, an array gives its elements. *)
Definition decode_bytes (v : value) (old : slice) : slice * option error :=
  match v with
  | JNull => (None, None)
  | JString s =>
      match base64.DecodeString s with
      | Ok b => (Some b, None)
      | Err e => (old, Some e)
      end
  | JArray vs =>
      let '(bs, e) := decode_byte_elements vs (slice_data old) in (Some bs, e)
  | _ => (old, Some UnmarshalTypeError)
  end.

Definition set_envelope (m : bytes * value) (acc : envelope * option error)
  : envelope * option error :=
  let '(key, v) := m in
  let '(env, saved) := acc in
  if key_is key "SHA" then
    let '(x, e) := decode_bytes v (SHA env) in
    ({| SHA := x; Data := Data env |}, saveError saved e)
  else if key_is key "Data" then
    let '(x, e) := decode_bytes v (Data env) in
    ({| SHA := SHA env; Data := x |}, saveError saved e)
  else acc.

Definition set_persistentState (m : bytes * value) (acc : persistentState * option error)
  : persistentState * option error :=
  let '(key, v) := m in
  let '(ps, saved) := acc in
  if key_is key "CurrentTerm" then
    let '(x, e) := decode_uint64 v (CurrentTerm ps) in
    ({| CurrentTerm := x; VotedFor := VotedFor ps |}, saveError saved e)
  else if key_is key "VotedFor" then
    let '(x, e) := decode_string v (VotedFor ps) in
    ({| CurrentTerm := CurrentTerm ps; VotedFor := x |}, saveError saved e)
  else acc.

(** [json.Unmarshal] into a struct: the struct as the call leaves it and
    the error.  A document that is not valid JSON changes nothing; an
    object sets the fields it names, in order; [null] changes nothing;
    any other value is a type error. *)
Definition Unmarshal {A} (set : bytes * value -> A * option error -> A * option error)
    (data : bytes) (x : A) : A * option error :=
  match parse data with
  | None => (x, Some SyntaxError)
  | Some (JObject ms) => fold_left (fun acc m => set m acc) ms (x, None)
  | Some JNull => (x, None)
  | Some _ => (x, Some UnmarshalTypeError)
  end.

Definition Unmarshal_envelope := Unmarshal set_envelope.
Definition Unmarshal_persistentState := Unmarshal set_persistentState.

End json.

(* ===================================================================== *)
(** ** default_log.go                                                     *)
(* ===================================================================== *)

Module DefaultLog.

(** The log of leadership election: only the term and the last vote are
    persisted, in the file at [path]. *)
Record t := { path : string }.

Definition NewDefaultLog (path : string) : t := {| path := path |}.

(** [Close]: removes the file, forgets the path, returns what the removal
    returned. *)
Definition Close (l : t) (fs : os.FS) : option error * t * os.FS :=
  let '(err, fs') := os.Remove (path l) fs in
  (err, {| path := "" |}, fs').

(** [LatestEntry]: the term and the vote of the file; index and log
    information are always zero and nil. *)
Definition LatestEntry (l : t) (fs : os.FS)
  : uint64 * string * uint64 * slice * option error :=
  match os.ReadFile (path l) fs with
  | Err err => (0, EmptyString, 0, None, Some err)
  | Ok buf =>
      if (length buf <=? 0)%nat then (0, EmptyString, 0, None, Some LogNoStateErr)
      else
        match json.Unmarshal_envelope buf {| SHA := None; Data := None |} with
        | (_, Some err) => (0, EmptyString, 0, None, Some err)
        | (env, None) =>
            (* Test for corruption *)
            let sha := sha1.Sum sha1.New (Data env) in
            if negb (bytes_Equal sha (SHA env)) then
              (0, EmptyString, 0, None, Some LogCorruptErr)
            else
              match json.Unmarshal_persistentState (slice_data (Data env))
                      {| CurrentTerm := 0; VotedFor := EmptyString |} with
              | (_, Some err) => (0, EmptyString, 0, None, Some err)
              | (ps, None) => (CurrentTerm ps, VotedFor ps, 0, None, None)
              end
        end
  end.

(** [AppendEntry]: writes the term and the vote, framed with the check
    value; [index] and [entry] are not used. *)
Definition AppendEntry (l : t) (term : uint64) (votedFor : string)
    (index : uint64) (entry : slice) (fs : os.FS) : option error * os.FS :=
  let ps := {| CurrentTerm := term; VotedFor := votedFor |} in
  let logPath := path l in
  match json.Marshal_persistentState ps with
  | Err err => (Some err, fs)
  | Ok buf =>
      (* Set a SHA1 to test for corruption on read *)
      let env := {| SHA := sha1.Sum sha1.New (Some buf); Data := Some buf |} in
      match json.Marshal_envelope env with
      | Err err => (Some err, fs)
      | Ok toWrite => os.WriteFile logPath toWrite fs
      end
  end.

(** [LogUpToDate]: the default log has no history. *)
Definition LogUpToDate (l : t) (index : uint64) (info : slice)
    (candidateIndex : uint64) (candidateInfo : slice) : bool :=
  true.

End DefaultLog.

(* ===================================================================== *)
(** ** The log of the test suite                                          *)
(* ===================================================================== *)

Module TestLog.

(** The fields the methods use; the mutex and the [testing.T] of the Go
    struct play no part in them. *)
Record t := {
  Term : uint64;
  VotedFor : string;
  LastIndex : uint64;
  LastEntry : slice;
  Closed : bool
}.

Definition NewTestLog (lastIndex : uint64) (lastEntry : slice) : t :=
  {| Term := 0; VotedFor := EmptyString; LastIndex := lastIndex;
     LastEntry := lastEntry; Closed := false |}.

Definition Close (l : t) : option error * t :=
  (None, {| Term := Term l; VotedFor := VotedFor l; LastIndex := LastIndex l;
            LastEntry := LastEntry l; Closed := true |}).

Definition LatestEntry (l : t) : uint64 * string * uint64 * slice * option error :=
  (Term l, VotedFor l, LastIndex l, LastEntry l, None).

(** [AppendEntry]: index and entry are ignored, they are set elsewhere. *)
Definition AppendEntry (l : t) (term : uint64) (votedFor : string)
    (index : uint64) (entry : slice) : option error * t :=
  (None, {| Term := term; VotedFor := votedFor; LastIndex := LastIndex l;
            LastEntry := LastEntry l; Closed := Closed l |}).

(** [LogUpToDate]: the value returned; the line the method prints on
    standard output is not part of the model. *)
Definition LogUpToDate (l : t) (index : uint64) (info : slice)
    (candidateIndex : uint64) (candidateInfo : slice) : bool :=
  if index =? candidateIndex then true
  else index <? candidateIndex.

End TestLog.

(* ===================================================================== *)
(** ** log.go                                                             *)
(* ===================================================================== *)

(** The [Log] interface.  An implementation is a type of log states: the
    log object together with the store behind it. *)
Class Log (L : Type) := {
  LatestEntry : L -> uint64 * string * uint64 * slice * option error * L;
  LogUpToDate : L -> uint64 -> slice -> uint64 -> slice -> bool;
  AppendEntry : L -> uint64 -> string -> uint64 -> slice -> option error * L;
  Close : L -> option error * L
}.

Global Instance DefaultLog_Log : Log (DefaultLog.t * gmap string (list ascii)) := {|
  LatestEntry := fun '(l, fs) => (DefaultLog.LatestEntry l fs, (l, fs));
  LogUpToDate := fun '(l, fs) => DefaultLog.LogUpToDate l;
  AppendEntry := fun '(l, fs) term votedFor index entry =>
    let '(err, fs') := DefaultLog.AppendEntry l term votedFor index entry fs in
    (err, (l, fs'));
  Close := fun '(l, fs) =>
    let '(err, l', fs') := DefaultLog.Close l fs in (err, (l', fs'))
|}.

Global Instance TestLog_Log : Log TestLog.t := {|
  LatestEntry := fun l => (TestLog.LatestEntry l, l);
  LogUpToDate := TestLog.LogUpToDate;
  AppendEntry := TestLog.AppendEntry;
  Close := TestLog.Close
|}.

Section Node.

Context {L : Type} `{Log L}.

(** Modelled from the spec: [node.go] is not among the sources.  Of the
    node, section 3 of the specification gives the fields [term], [vote],
    [lastIndex] and [lastInfo]; [log.go] adds the log and its path.  The
    four setters store their argument in the field they name. *)
Record Node := {
  log : L;
  logPath : string;
  term : uint64;
  vote : string;
  lastIndex : uint64;
  logInfo : slice
}.

Definition with_log (n : Node) (l : L) : Node :=
  {| log := l; logPath := logPath n; term := term n; vote := vote n;
     lastIndex := lastIndex n; logInfo := logInfo n |}.

Definition setTerm (n : Node) (t : uint64) : Node :=
  {| log := log n; logPath := logPath n; term := t; vote := vote n;
     lastIndex := lastIndex n; logInfo := logInfo n |}.

Definition setVote (n : Node) (candidate : string) : Node :=
  {| log := log n; logPath := logPath n; term := term n; vote := candidate;
     lastIndex := lastIndex n; logInfo := logInfo n |}.

Definition SetLastIndex (n : Node) (i : uint64) : Node :=
  {| log := log n; logPath := logPath n; term := term n; vote := vote n;
     lastIndex := i; logInfo := logInfo n |}.

Definition SetLogInfo (n : Node) (info : slice) : Node :=
  {| log := log n; logPath := logPath n; term := term n; vote := vote n;
     lastIndex := lastIndex n; logInfo := info |}.

Definition closeLog (n : Node) : option error * Node :=
  let '(err, l) := Close (log n) in
  (err, {| log := l; logPath := EmptyString; term := term n; vote := vote n;
           lastIndex := lastIndex n; logInfo := logInfo n |}).

(** [writeState]: the index and the entry do not change here, so zero and
    nil are passed. *)
Definition writeState (n : Node) : option error * Node :=
  let '(err, l) := AppendEntry (log n) (term n) (vote n) 0 None in
  (err, with_log n l).

Definition readState (n : Node) : option error * Node :=
  let '(currentTerm, lastVoted, lastIndex, logInfo, err, l) := LatestEntry (log n) in
  let n := with_log n l in
  if bool_decide (err <> None) && bool_decide (err <> Some LogNoStateErr) then (err, n)
  else
    (* Update our state from the log *)
    let n := setTerm n currentTerm in
    let n := setVote n lastVoted in
    let n := SetLastIndex n lastIndex in
    let n := SetLogInfo n logInfo in
    (None, n).

End Node.

Arguments Node L : clear implicits.

(** The error of a [LatestEntry] result. *)
Definition latest_err {L} (r : uint64 * string * uint64 * slice * option error * L)
  : option error :=
  snd (fst r).

(* ===================================================================== *)
(** ** Notions used in the statements                                     *)
(* ===================================================================== *)

(** The errors the decoder can save or return. *)
Definition json_error (o : option error) : Prop :=
  match o with
  | None | Some SyntaxError | Some UnmarshalTypeError | Some CorruptInputError => True
  | Some _ => False
  end.

(** A store is fresh when its path names no file or an empty one. *)
Definition fresh_store (l : DefaultLog.t) (fs : gmap string (list ascii)) : Prop :=
  os.file (DefaultLog.path l) fs = None \/ os.file (DefaultLog.path l) fs = Some [].

(** A 6-bit value: the two high bits are clear. *)
Definition sextet (i : ascii) : Prop :=
  match i with Ascii _ _ _ _ _ _ false false => True | _ => False end.

(** The characters [EncodeToString] writes: of the alphabet or padding. *)
Definition base64_text (c : ascii) : Prop :=
  base64.is_newline c = false /\ json.htmlSafe c = true.

(** After the digits of a number comes a byte that ends the literal. *)
Definition ends_number (c : ascii) : Prop :=
  json.is_digit c = false /\ Ascii.eqb c "." = false
  /\ Ascii.eqb c "e" = false /\ Ascii.eqb c "E" = false.

(** A node on the default log at path "log", with a term and a vote of
    its own. *)
Definition node_on (fs : gmap string (list ascii)) : Node (DefaultLog.t * gmap string (list ascii)) :=
  {| log := (DefaultLog.NewDefaultLog "log", fs); logPath := "log";
     term := 5; vote := "node-b"; lastIndex := 0; logInfo := None |}.

(** The bytes of a string in which the apostrophe stands for the double
    quote. *)
Definition quoted (s : string) : list ascii :=
  map (fun c => if Ascii.eqb c "'" then dquote else c) (B s).

(** The text of a marshalled document. *)
Definition show (r : result bytes) : string :=
  match r with Ok b => string_of_list_ascii b | Err _ => "error" end.

(* ===================================================================== *)
(** ** Notions used in the further properties                             *)
(* ===================================================================== *)

(** The bytes [json.Unmarshal] gives back for a string written by
    [json.Marshal]: every byte that is not part of a well-formed rune
    becomes the three bytes of U+FFFD. *)
Fixpoint coerce_from (skip : nat) (p : list ascii) : list ascii :=
  match p with
  | [] => []
  | _ :: p' =>
      match skip with
      | S k => coerce_from k p'
      | O =>
          let '(r, size) := utf8.DecodeRune p in
          if (r =? utf8.RuneError) && (size =? 1)%nat
          then utf8.EncodeRune utf8.RuneError ++ coerce_from 0 p'
          else firstn size p ++ coerce_from (size - 1) p'
      end
  end.

Definition coerce (v : string) : string :=
  string_of_list_ascii (coerce_from 0 (B v)).

(** The payload [AppendEntry] frames: the document of the term and the
    vote. *)
Definition payload (t : N) (v : string) : list ascii :=
  match json.Marshal_persistentState {| CurrentTerm := t; VotedFor := v |} with
  | Ok buf => buf
  | Err _ => []
  end.

(** The file [AppendEntry] writes. *)
Definition document (t : N) (v : string) : list ascii :=
  match json.Marshal_envelope
          {| SHA := sha1.Sum sha1.New (Some (payload t v)); Data := Some (payload t v) |} with
  | Ok buf => buf
  | Err _ => []
  end.

(** The branches of [LatestEntry]. *)
Inductive LatestEntry_case (l : DefaultLog.t) (fs : gmap string (list ascii))
  : N * string * N * option (list ascii) * option error -> Prop :=
  | case_no_file :
      os.file (DefaultLog.path l) fs = None ->
      LatestEntry_case l fs
        (0, EmptyString, 0, None, Some (PathError "open" (DefaultLog.path l) ENOENT))
  | case_empty :
      os.file (DefaultLog.path l) fs = Some [] ->
      LatestEntry_case l fs (0, EmptyString, 0, None, Some LogNoStateErr)
  | case_bad_envelope buf env e :
      os.file (DefaultLog.path l) fs = Some buf -> buf <> [] ->
      json.Unmarshal_envelope buf {| SHA := None; Data := None |} = (env, Some e) ->
      LatestEntry_case l fs (0, EmptyString, 0, None, Some e)
  | case_corrupt buf env :
      os.file (DefaultLog.path l) fs = Some buf -> buf <> [] ->
      json.Unmarshal_envelope buf {| SHA := None; Data := None |} = (env, None) ->
      bytes_Equal (sha1.Sum sha1.New (Data env)) (SHA env) = false ->
      LatestEntry_case l fs (0, EmptyString, 0, None, Some LogCorruptErr)
  | case_bad_payload buf env ps e :
      os.file (DefaultLog.path l) fs = Some buf -> buf <> [] ->
      json.Unmarshal_envelope buf {| SHA := None; Data := None |} = (env, None) ->
      bytes_Equal (sha1.Sum sha1.New (Data env)) (SHA env) = true ->
      json.Unmarshal_persistentState (slice_data (Data env))
        {| CurrentTerm := 0; VotedFor := EmptyString |} = (ps, Some e) ->
      LatestEntry_case l fs (0, EmptyString, 0, None, Some e)
  | case_entry buf env ps :
      os.file (DefaultLog.path l) fs = Some buf -> buf <> [] ->
      json.Unmarshal_envelope buf {| SHA := None; Data := None |} = (env, None) ->
      bytes_Equal (sha1.Sum sha1.New (Data env)) (SHA env) = true ->
      json.Unmarshal_persistentState (slice_data (Data env))
        {| CurrentTerm := 0; VotedFor := EmptyString |} = (ps, None) ->
      LatestEntry_case l fs (CurrentTerm ps, VotedFor ps, 0, None, None).

(** A log file whose envelope stores the SHA-1 digest of its payload, the
    document of term 3 and vote "node-a". *)
Definition true_digest_file : list ascii :=
  match json.Marshal_envelope
          {| SHA := Some (sha1.checkSum (payload 3 "node-a"));
             Data := Some (payload 3 "node-a") |} with
  | Ok buf => buf
  | Err _ => []
  end.

(* ===================================================================== *)
(** * Properties                                                          *)
(* ===================================================================== *)

(** ** The runtime model on known values *)

Example sha1_abc :
  map byte_val (sha1.checkSum (B "abc")) =
  [169; 153; 62; 54; 71; 6; 129; 106; 186; 62; 37; 113; 120; 80; 194; 108; 156; 208; 216; 157].
Proof. vm_compute. reflexivity. Qed.

Example base64_encode_foobar :
  base64.EncodeToString (B "fooba") = B "Zm9vYmE=" /\
  base64.EncodeToString (B "foobar") = B "Zm9vYmFy" /\
  base64.EncodeToString (B "f") = B "Zg==".
Proof. vm_compute. auto. Qed.

Example base64_decode_foobar :
  base64.DecodeString (B "Zm9vYmE=") = Ok (B "fooba") /\
  base64.DecodeString (B "Zg==") = Ok (B "f") /\
  base64.DecodeString (B "Zg=") = Err CorruptInputError /\
  base64.DecodeString (B "Zh==") = Ok (B "f").
Proof. vm_compute. auto. Qed.

Example utf8_decode_samples :
  utf8.DecodeRune (map byte_of [226; 130; 172; 65]) = (8364, 3%nat) /\
  utf8.EncodeRune 8364 = map byte_of [226; 130; 172] /\
  utf8.DecodeRune (map byte_of [237; 160; 128]) = (utf8.RuneError, 1%nat) /\
  utf8.DecodeRune (map byte_of [240; 159; 152; 128]) = (128512, 4%nat) /\
  utf8.EncodeRune 128512 = map byte_of [240; 159; 152; 128] /\
  utf8.Valid (map byte_of [65; 195; 169; 226; 130; 172]) = true /\
  utf8.Valid (map byte_of [65; 195]) = false /\
  utf8.Valid (map byte_of [255]) = false.
Proof. vm_compute. repeat split. Qed.

Example marshal_persistentState_sample :
  show (json.Marshal_persistentState {| CurrentTerm := 42; VotedFor := "a<b" |})
  = string_of_list_ascii
      (B "{" ++ dquote :: B "CurrentTerm" ++ dquote :: B ":42," ++ dquote :: B "VotedFor"
         ++ dquote :: B ":" ++ dquote :: B "a\u003cb" ++ dquote :: B "}").
Proof. vm_compute. reflexivity. Qed.

Example marshal_envelope_sample :
  show (json.Marshal_envelope {| SHA := Some (B "fo"); Data := None |})
  = string_of_list_ascii
      (B "{" ++ dquote :: B "SHA" ++ dquote :: B ":" ++ dquote :: B "Zm8=" ++ dquote
         :: B "," ++ dquote :: B "Data" ++ dquote :: B ":null}").
Proof. vm_compute. reflexivity. Qed.

Example appendString_samples :
  string_of_list_ascii
    (json.appendString (map byte_of [226; 128; 168; 65; 1; 127; 60; 255; 10; 195; 169]))
  = string_of_list_ascii
      (dquote :: B "\u2028A\u0001" ++ byte_of 127
         :: B "\u003c\ufffd\n" ++ map byte_of [195; 169] ++ [dquote]).
Proof. vm_compute. reflexivity. Qed.

Example parse_samples :
  json.parse (quoted "'\ud83d\ude00 \ud83d \u0041\/'")
  = Some (json.JString (map byte_of [240; 159; 152; 128; 32; 239; 191; 189; 32; 65; 47]))
  /\ json.parse (quoted "{'a': [1, -2.5e+3, true, null], 'b': {}} ")
     = Some (json.JObject
               [(B "a", json.JArray [json.JNumber (B "1"); json.JNumber (B "-2.5e+3");
                                     json.JBool true; json.JNull]);
                (B "b", json.JObject [])])
  /\ json.parse (quoted "[01]") = None
  /\ json.parse (quoted "{'a':1,}") = None
  /\ json.parse (quoted "'\x'") = None.
Proof. vm_compute. repeat split. Qed.

Example Unmarshal_samples :
  json.Unmarshal_envelope (quoted "{'sha':'Zm8=','DATA':[1,2,null]}")
    {| SHA := None; Data := None |}
  = ({| SHA := Some (B "fo"); Data := Some (map byte_of [1; 2; 0]) |}, None)
  /\ json.Unmarshal_persistentState
       (quoted "{'CurrentTerm':18446744073709551616,'votedfor':'me','x':1}")
       {| CurrentTerm := 0; VotedFor := EmptyString |}
     = ({| CurrentTerm := 0; VotedFor := "me" |}, Some UnmarshalTypeError)
  /\ json.Unmarshal_persistentState (quoted "null")
       {| CurrentTerm := 7; VotedFor := "a" |}
     = ({| CurrentTerm := 7; VotedFor := "a" |}, None).
Proof. vm_compute. repeat split. Qed.

(** ** The two comparators *)

(** C4.  [DefaultLog.LogUpToDate] returns true on every input. *)
Theorem DefaultLog_LogUpToDate_true (l : DefaultLog.t) (index : N) (info : option (list ascii))
    (candidateIndex : N) (candidateInfo : option (list ascii)) :
  DefaultLog.LogUpToDate l index info candidateIndex candidateInfo = true.
Proof. reflexivity. Qed.

(** C5.  [TestLog.LogUpToDate] returns true exactly when the candidate's
    index is at least the local index; the information bytes play no
    part. *)
Theorem TestLog_LogUpToDate_iff (l : TestLog.t) (index : N) (info : option (list ascii))
    (candidateIndex : N) (candidateInfo : option (list ascii)) :
  TestLog.LogUpToDate l index info candidateIndex candidateInfo = true
  <-> index <= candidateIndex.
Proof.
  unfold TestLog.LogUpToDate.
  destruct (N.eqb_spec index candidateIndex) as [Heq | Hne].
  - split; [intros _; lia | reflexivity].
  - rewrite N.ltb_lt. lia.
Qed.

(** C10.  [TestLog.AppendEntry] returns nil and writes the term and the
    vote only: the last index, the last entry and the closed flag keep
    their values. *)
Theorem TestLog_AppendEntry_frame (l : TestLog.t) (term : N) (votedFor : string)
    (index : N) (entry : option (list ascii)) :
  let '(err, l') := TestLog.AppendEntry l term votedFor index entry in
  err = None
  /\ TestLog.Term l' = term /\ TestLog.VotedFor l' = votedFor
  /\ TestLog.LastIndex l' = TestLog.LastIndex l
  /\ TestLog.LastEntry l' = TestLog.LastEntry l
  /\ TestLog.Closed l' = TestLog.Closed l.
Proof. cbn. repeat split. Qed.

(** ** The node reading its state *)

Section ReadState.

Context {L : Type} `{Log L}.

Lemma readState_unfold (n : Node L) currentTerm lastVoted lastIndex' logInfo' err l :
  LatestEntry (log n) = (currentTerm, lastVoted, lastIndex', logInfo', err, l) ->
  readState n =
    if bool_decide (err <> None) && bool_decide (err <> Some LogNoStateErr)
    then (err, with_log n l)
    else (None, SetLogInfo (SetLastIndex (setVote (setTerm (with_log n l) currentTerm)
                              lastVoted) lastIndex') logInfo').
Proof. intros Hl. unfold readState. rewrite Hl. reflexivity. Qed.

End ReadState.

(** C6.  When the log's [LatestEntry] gives [LogNoStateErr], [readState]
    returns nil. *)
Theorem readState_swallows_NoState {L : Type} `{Log L} (n : Node L) :
  latest_err (LatestEntry (log n)) = Some LogNoStateErr ->
  fst (readState n) = None.
Proof.
  destruct (LatestEntry (log n)) as [[[[[ct lv] li] info] err] l] eqn:Hl.
  unfold latest_err. cbn. intros ->.
  rewrite (readState_unfold n _ _ _ _ _ _ Hl).
  rewrite (bool_decide_eq_false_2 (Some LogNoStateErr <> Some LogNoStateErr)) by tauto.
  rewrite andb_false_r. reflexivity.
Qed.

(** C9.  When the log's [LatestEntry] gives an error other than
    [LogNoStateErr], [readState] returns that error and leaves the term,
    the vote, the last index and the log information of the node as they
    were. *)
Theorem readState_error_atomic {L : Type} `{Log L} (n : Node L) (e : error) :
  latest_err (LatestEntry (log n)) = Some e ->
  e <> LogNoStateErr ->
  let '(err, n') := readState n in
  err = Some e
  /\ term n' = term n /\ vote n' = vote n
  /\ lastIndex n' = lastIndex n /\ logInfo n' = logInfo n.
Proof.
  destruct (LatestEntry (log n)) as [[[[[ct lv] li] info] err] l] eqn:Hl.
  unfold latest_err. cbn. intros -> Hne.
  rewrite (readState_unfold n _ _ _ _ _ _ Hl).
  rewrite (bool_decide_eq_true_2 (Some e <> None)) by discriminate.
  rewrite (bool_decide_eq_true_2 (Some e <> Some LogNoStateErr)) by congruence.
  cbn. repeat split.
Qed.

(** ** The errors of [json.Unmarshal] *)

Lemma saveError_json saved e :
  json_error saved -> json_error e -> json_error (json.saveError saved e).
Proof. destruct saved; cbn; auto. Qed.

Lemma decode_uint64_json v old : json_error (snd (json.decode_uint64 v old)).
Proof.
  destruct v; cbn; auto.
  destruct (json.ParseUint lit uint64_max); cbn; auto.
Qed.

Lemma decode_string_json v old : json_error (snd (json.decode_string v old)).
Proof. destruct v; cbn; auto. Qed.

Lemma decode_byte_elements_json vs old :
  json_error (snd (json.decode_byte_elements vs old)).
Proof.
  revert old. induction vs as [| v vs IH]; intros old; cbn; auto.
  specialize (IH (tail old)).
  destruct (json.decode_byte_elements vs (tail old)) as [bs e'].
  destruct v; cbn in *; auto.
  destruct (json.ParseUint lit 255); cbn; auto.
Qed.

Lemma decode_bytes_json v old : json_error (snd (json.decode_bytes v old)).
Proof.
  destruct v; cbn; auto.
  - unfold base64.DecodeString.
    destruct (base64.decode_quanta _); cbn; auto.
  - pose proof (decode_byte_elements_json l (slice_data old)) as He.
    destruct (json.decode_byte_elements l (slice_data old)); auto.
Qed.

Lemma set_persistentState_json m acc :
  json_error (snd acc) -> json_error (snd (json.set_persistentState m acc)).
Proof.
  destruct m as [key v], acc as [ps saved]. unfold json.set_persistentState. cbn [snd].
  intros Hs.
  destruct (json.key_is key "CurrentTerm").
  - pose proof (decode_uint64_json v (CurrentTerm ps)) as He.
    destruct (json.decode_uint64 v (CurrentTerm ps)). now apply saveError_json.
  - destruct (json.key_is key "VotedFor"); [| exact Hs].
    pose proof (decode_string_json v (VotedFor ps)) as He.
    destruct (json.decode_string v (VotedFor ps)). now apply saveError_json.
Qed.

Lemma set_envelope_json m acc :
  json_error (snd acc) -> json_error (snd (json.set_envelope m acc)).
Proof.
  destruct m as [key v], acc as [env saved]. unfold json.set_envelope. cbn [snd].
  intros Hs.
  destruct (json.key_is key "SHA").
  - pose proof (decode_bytes_json v (SHA env)) as He.
    destruct (json.decode_bytes v (SHA env)). now apply saveError_json.
  - destruct (json.key_is key "Data"); [| exact Hs].
    pose proof (decode_bytes_json v (Data env)) as He.
    destruct (json.decode_bytes v (Data env)). now apply saveError_json.
Qed.

Lemma Unmarshal_json {A} (set : list ascii * json.value -> A * option error -> A * option error)
    (data : list ascii) (x : A) :
  (forall m acc, json_error (snd acc) -> json_error (snd (set m acc))) ->
  json_error (snd (json.Unmarshal set data x)).
Proof.
  intros Hset. unfold json.Unmarshal.
  destruct (json.parse data) as [[| | | | |ms] |]; cbn; auto.
  assert (Hacc : json_error (snd (x, @None error))) by exact I.
  revert Hacc. generalize (x, @None error).
  induction ms as [| m ms IH]; intros acc Hacc; cbn; auto.
Qed.

(** ** The default log on the file system *)

(** C8.  Two calls of [DefaultLog.AppendEntry] with the same term and
    vote write the same file and return the same result, whatever their
    index and entry arguments. *)
Theorem AppendEntry_ignores_index_entry (l : DefaultLog.t) (t : N) (v : string)
    (i1 i2 : N) (e1 e2 : option (list ascii)) (fs : gmap string (list ascii)) :
  DefaultLog.AppendEntry l t v i1 e1 fs = DefaultLog.AppendEntry l t v i2 e2 fs.
Proof. reflexivity. Qed.

Lemma checkSum_length msg : length (sha1.checkSum msg) = 20%nat.
Proof.
  unfold sha1.checkSum.
  destruct (fold_left sha1.block _ sha1.init) as [[[[h0 h1] h2] h3] h4]. reflexivity.
Qed.

(** C3.  The check value [LatestEntry] recomputes is not a digest over
    the payload: [sha1.New().Sum(Data)] is the payload followed by the
    digest of the empty input.  So a file whose envelope stores the
    SHA-1 digest of its payload, the payload not being empty, is reported
    as corrupt although the digest recomputed over the payload equals
    the stored one. *)
Theorem LatestEntry_rejects_true_digest (l : DefaultLog.t) (fs : gmap string (list ascii))
    (buf : list ascii) (env : envelope) :
  os.ReadFile (DefaultLog.path l) fs = Ok buf ->
  buf <> [] ->
  json.Unmarshal_envelope buf {| SHA := None; Data := None |} = (env, None) ->
  slice_data (Data env) <> [] ->
  slice_data (SHA env) = sha1.checkSum (slice_data (Data env)) ->
  DefaultLog.LatestEntry l fs = (0, EmptyString, 0, None, Some LogCorruptErr).
Proof.
  intros Hread Hne Henv Hdata Hsha. unfold DefaultLog.LatestEntry.
  rewrite Hread. destruct buf as [| c buf]; [congruence |].
  cbn [length Nat.leb]. rewrite Henv.
  assert (Hneq : bytes_Equal (sha1.Sum sha1.New (Data env)) (SHA env) = false).
  { unfold bytes_Equal, sha1.Sum. cbn [slice_data sha1.written sha1.New].
    apply bool_decide_eq_false_2. rewrite Hsha. intros Heq.
    apply (f_equal (@length ascii)) in Heq.
    rewrite length_app, !checkSum_length in Heq.
    destruct (slice_data (Data env)); [congruence | cbn in Heq; lia]. }
  rewrite Hneq. reflexivity.
Qed.

Lemma LatestEntry_rejects_true_digest_witness :
  DefaultLog.LatestEntry (DefaultLog.NewDefaultLog "log")
    (<["log"%string := true_digest_file]> ∅)
  = (0, EmptyString, 0, None, Some LogCorruptErr).
Proof.
  apply (LatestEntry_rejects_true_digest (DefaultLog.NewDefaultLog "log")
           (<["log"%string := true_digest_file]> ∅) true_digest_file
           {| SHA := Some (sha1.checkSum (payload 3 "node-a"));
              Data := Some (payload 3 "node-a") |}).
  - vm_compute. reflexivity.
  - vm_compute. discriminate.
  - vm_compute. reflexivity.
  - vm_compute. discriminate.
  - reflexivity.
Defined.

(** The other way round, the file [AppendEntry] writes is read without
    error although the check value it stores is not the digest of its
    payload. *)
Example AppendEntry_file_not_digest :
  let l := DefaultLog.NewDefaultLog "log" in
  let fs1 := snd (DefaultLog.AppendEntry l 3 "node-a" 0 None ∅) in
  (exists buf env,
      fs1 !! "log"%string = Some buf
      /\ json.Unmarshal_envelope buf {| SHA := None; Data := None |} = (env, None)
      /\ slice_data (SHA env) <> sha1.checkSum (slice_data (Data env)))
  /\ DefaultLog.LatestEntry l fs1 = (3, "node-a"%string, 0, None, None).
Proof.
  split; [| vm_compute; reflexivity].
  eexists. eexists. split; [vm_compute; reflexivity |].
  split; [vm_compute; reflexivity |]. vm_compute. discriminate.
Qed.

(** C2, as stated, fails on a path with no file: the error of the read
    is returned, not [LogNoStateErr]. *)
Lemma LatestEntry_no_file_not_NoState :
  ~ (fresh_store (DefaultLog.NewDefaultLog "log") ∅ ->
     snd (DefaultLog.LatestEntry (DefaultLog.NewDefaultLog "log") ∅) = Some LogNoStateErr).
Proof.
  intros Hclaim.
  assert (Hfresh : fresh_store (DefaultLog.NewDefaultLog "log") ∅) by (left; reflexivity).
  specialize (Hclaim Hfresh). vm_compute in Hclaim. discriminate.
Qed.

(** C2, amended.  On a fresh store [LatestEntry] returns zero values and
    an error: [LogNoStateErr] when the file exists and is empty, the
    error of the read when there is no file. *)
Theorem LatestEntry_fresh_store (l : DefaultLog.t) (fs : gmap string (list ascii)) :
  fresh_store l fs ->
  DefaultLog.LatestEntry l fs =
    (0, EmptyString, 0, None,
     Some (match os.file (DefaultLog.path l) fs with
           | Some _ => LogNoStateErr
           | None => PathError "open" (DefaultLog.path l) ENOENT
           end)).
Proof.
  unfold fresh_store, DefaultLog.LatestEntry, os.ReadFile.
  intros [-> | ->]; reflexivity.
Qed.

Lemma LatestEntry_fresh_store_witness :
  fresh_store (DefaultLog.NewDefaultLog "log") (<["log"%string := []]> ∅)
  /\ DefaultLog.LatestEntry (DefaultLog.NewDefaultLog "log") (<["log"%string := []]> ∅)
     = (0, EmptyString, 0, None, Some LogNoStateErr).
Proof.
  split.
  - right. vm_compute. reflexivity.
  - etransitivity.
    + apply (LatestEntry_fresh_store (DefaultLog.NewDefaultLog "log")
               (<["log"%string := []]> ∅)).
      right. vm_compute. reflexivity.
    + vm_compute. reflexivity.
Defined.

(** C7, as stated, fails: closing a log whose file exists returns nil,
    closing it again returns an error. *)
Lemma Close_twice_result_differs :
  let fs := <["log"%string := B "x"]> ∅ in
  let '(e1, l1, fs1) := DefaultLog.Close (DefaultLog.NewDefaultLog "log") fs in
  let '(e2, _, _) := DefaultLog.Close l1 fs1 in
  e1 = None /\ e2 <> e1.
Proof. vm_compute. split; [reflexivity | discriminate]. Qed.

(** C7, amended.  A second [Close] leaves the log and the file system as
    the first left them, and returns the error of removing the empty
    path. *)
Theorem Close_twice (l : DefaultLog.t) (fs : gmap string (list ascii)) :
  let '(_, l1, fs1) := DefaultLog.Close l fs in
  DefaultLog.Close l1 fs1 = (Some (PathError "remove" EmptyString ENOENT), l1, fs1).
Proof.
  unfold DefaultLog.Close.
  destruct (os.Remove (DefaultLog.path l) fs) as [e1 fs1]. reflexivity.
Qed.

(** ** Round trip of base64 *)

Lemma dec_enc_char i : sextet i -> base64.dec_char (base64.enc_char i) = Some i.
Proof.
  destruct i as [b0 b1 b2 b3 b4 b5 [] []]; cbn; try tauto.
  intros _. destruct b0, b1, b2, b3, b4, b5; reflexivity.
Qed.

Lemma enc_char_plain i :
  sextet i ->
  base64.is_newline (base64.enc_char i) = false
  /\ json.htmlSafe (base64.enc_char i) = true.
Proof.
  destruct i as [b0 b1 b2 b3 b4 b5 [] []]; cbn; try tauto.
  intros _. destruct b0, b1, b2, b3, b4, b5; split; reflexivity.
Qed.

Lemma sextet_sext1 a : sextet (base64.sext1 a).
Proof. destruct a; exact I. Qed.
Lemma sextet_sext2 a b : sextet (base64.sext2 a b).
Proof. destruct a, b; exact I. Qed.
Lemma sextet_sext3 a b : sextet (base64.sext3 a b).
Proof. destruct a, b; exact I. Qed.
Lemma sextet_sext4 a : sextet (base64.sext4 a).
Proof. destruct a; exact I. Qed.

Lemma out1_sext a b : base64.out1 (base64.sext1 a) (base64.sext2 a b) = a.
Proof. destruct a, b; reflexivity. Qed.
Lemma out2_sext a b c : base64.out2 (base64.sext2 a b) (base64.sext3 b c) = b.
Proof. destruct a, b, c; reflexivity. Qed.
Lemma out3_sext b c : base64.out3 (base64.sext3 b c) (base64.sext4 c) = c.
Proof. destruct b, c; reflexivity. Qed.

(** Induction on a list three elements at a time. *)
Lemma list_ind3 {A} (P : list A -> Prop) :
  P [] -> (forall a, P [a]) -> (forall a b, P [a; b]) ->
  (forall a b c l, P l -> P (a :: b :: c :: l)) ->
  forall l, P l.
Proof.
  intros H0 H1 H2 H3 l.
  assert (Hall : forall n l, (length l < n)%nat -> P l).
  { clear l. induction n as [| n IH]; intros l Hlen; [lia |].
    destruct l as [| a [| b [| c l]]]; auto.
    apply H3, IH. cbn in Hlen. lia. }
  apply (Hall (S (length l))). lia.
Qed.

Lemma EncodeToString_text l : Forall base64_text (base64.EncodeToString l).
Proof.
  induction l as [| a | a b | a b c l IH] using list_ind3; cbn [base64.EncodeToString].
  - constructor.
  - repeat constructor; try apply enc_char_plain;
      auto using sextet_sext1, sextet_sext2, sextet_sext3, sextet_sext4.
  - repeat constructor; try apply enc_char_plain;
      auto using sextet_sext1, sextet_sext2, sextet_sext3, sextet_sext4.
  - repeat (constructor; [apply enc_char_plain;
      auto using sextet_sext1, sextet_sext2, sextet_sext3, sextet_sext4 |]).
    exact IH.
Qed.

Lemma decode_quanta_encode l :
  base64.decode_quanta (base64.EncodeToString l) = Some l.
Proof.
  induction l as [| a | a b | a b c l IH] using list_ind3;
    cbn [base64.EncodeToString base64.decode_quanta].
  - reflexivity.
  - rewrite !dec_enc_char by auto using sextet_sext1, sextet_sext2.
    cbn. now rewrite out1_sext.
  - rewrite !dec_enc_char by auto using sextet_sext1, sextet_sext2, sextet_sext3.
    cbn. now rewrite out1_sext, out2_sext.
  - rewrite !dec_enc_char
      by auto using sextet_sext1, sextet_sext2, sextet_sext3, sextet_sext4.
    rewrite IH. now rewrite out1_sext, out2_sext, out3_sext.
Qed.

Lemma DecodeString_EncodeToString l :
  base64.DecodeString (base64.EncodeToString l) = Ok l.
Proof.
  unfold base64.DecodeString.
  assert (Hf : filter (fun c => base64.is_newline c = false) (base64.EncodeToString l)
               = base64.EncodeToString l).
  { pose proof (EncodeToString_text l) as Ht.
    induction Ht as [| c s [Hc _] _ IH]; [reflexivity |].
    rewrite filter_cons. destruct (decide (base64.is_newline c = false)); [| contradiction].
    now rewrite IH. }
  rewrite Hf, decode_quanta_encode. reflexivity.
Qed.

(** ** Round trip of the decimal numbers *)

Lemma digits_of_uint d : Forall (fun c => json.is_digit c = true) (B (NilEmpty.string_of_uint d)).
Proof. induction d; cbn; constructor; auto. Qed.

(** A decimal in normal form is zero or starts with a digit other than 0. *)
Lemma unorm_fixed d :
  Decimal.unorm d = d ->
  d = Decimal.zero \/
  exists c ds, B (NilEmpty.string_of_uint d) = c :: ds
               /\ json.is_digit c = true /\ Ascii.eqb c "0" = false
               /\ Ascii.eqb c "-" = false
               /\ Forall (fun c => json.is_digit c = true) ds.
Proof.
  destruct d as [| d | d | d | d | d | d | d | d | d | d]; intros Hn;
    try (right; eexists; eexists; cbn; repeat split; apply digits_of_uint).
  - discriminate.
  - left. unfold Decimal.unorm in Hn. cbn in Hn.
    destruct (Decimal.nzhead d) eqn:Hz; try discriminate; [congruence |].
    now apply DecimalFacts.nzhead_nonzero in Hz.
Qed.

Lemma to_uint_norm n : Decimal.unorm (N.to_uint n) = N.to_uint n.
Proof. rewrite <- DecimalN.Unsigned.to_of. now rewrite DecimalN.Unsigned.of_to. Qed.

Lemma to_uint_nonnil n : N.to_uint n <> Decimal.Nil.
Proof. destruct n; [discriminate | apply DecimalPos.Unsigned.to_uint_nonnil]. Qed.

Lemma appendUint_string n :
  json.appendUint n = B (NilEmpty.string_of_uint (N.to_uint n)).
Proof.
  unfold json.appendUint, NilZero.string_of_uint.
  pose proof (to_uint_nonnil n). destruct (N.to_uint n); congruence.
Qed.

Lemma ParseUint_appendUint n max :
  n <= max -> json.ParseUint (json.appendUint n) max = Some n.
Proof.
  intros Hle. unfold json.ParseUint, json.appendUint, B.
  rewrite string_of_list_ascii_of_string.
  rewrite NilZero.usu by apply to_uint_nonnil.
  rewrite DecimalN.Unsigned.of_to.
  now apply N.leb_le in Hle as ->.
Qed.

Lemma span_digits_app ds c rest :
  Forall (fun c => json.is_digit c = true) ds ->
  json.is_digit c = false ->
  json.span_digits (ds ++ c :: rest) = (ds, c :: rest).
Proof.
  intros Hds Hc. induction Hds as [| d ds Hd _ IH]; cbn.
  - now rewrite Hc.
  - now rewrite Hd, IH.
Qed.

Lemma scan_number_appendUint n c rest :
  ends_number c ->
  json.scan_number (json.appendUint n ++ c :: rest) = Some (json.appendUint n, c :: rest).
Proof.
  intros (Hd & Hdot & He & HE).
  assert (Htail : forall lit,
            match json.scan_frac (c :: rest) with
            | Some (f, s3) =>
                match json.scan_exp s3 with
                | Some (e, s4) => Some ([] ++ lit ++ f ++ e, s4)
                | None => None
                end
            | None => None
            end = Some (lit, c :: rest)).
  { intros lit. cbn. rewrite Hdot. cbn. rewrite He, HE. cbn.
    now rewrite !List.app_nil_r. }
  rewrite appendUint_string.
  destruct (unorm_fixed _ (to_uint_norm n)) as [-> | (d & ds & -> & Hdig & Hz & Hm & Hds)].
  - cbn -[json.scan_frac json.scan_exp]. apply (Htail ["0"%char]).
  - unfold json.scan_number. cbn [app]. rewrite Hm.
    unfold json.scan_int. rewrite Hz, Hdig.
    rewrite (span_digits_app ds c rest Hds Hd). apply (Htail (d :: ds)).
Qed.

(** ** Round trip of UTF-8 *)

Lemma byte_of_val b : byte_of (byte_val b) = b.
Proof. apply ascii_N_embedding. Qed.

Lemma in_range_spec lo hi c :
  utf8.in_range lo hi c = true <-> lo <= byte_val c <= hi.
Proof. unfold utf8.in_range. rewrite andb_true_iff, !N.leb_le. tauto. Qed.

Lemma divmod_unique a b q r : r < b -> a = b * q + r -> a / b = q /\ a mod b = r.
Proof.
  intros Hr Ha. split; symmetry.
  - now apply (N.div_unique a b q r).
  - now apply (N.mod_unique a b q r).
Qed.

Ltac bool_cases :=
  cbv zeta;
  repeat (match goal with
          | |- context [N.ltb ?a ?b] => destruct (N.ltb_spec a b)
          | |- context [N.leb ?a ?b] => destruct (N.leb_spec a b)
          | |- context [N.eqb ?a ?b] => destruct (N.eqb_spec a b)
          end; cbn [andb orb negb]);
  try lia.

Lemma second_range x y :
  utf8.second_lo x <= y <= utf8.second_hi x ->
  128 <= y <= 191
  /\ (x = 224 -> 160 <= y) /\ (x = 237 -> y <= 159)
  /\ (x = 240 -> 144 <= y) /\ (x = 244 -> y <= 143).
Proof. unfold utf8.second_lo, utf8.second_hi. bool_cases. Qed.

Lemma EncodeRune_scalar r :
  r <= 1114111 -> r < 55296 \/ 57343 < r ->
  utf8.EncodeRune r =
    if r <? 128 then [byte_of r]
    else if r <? 2048 then [byte_of (192 + r / 64); byte_of (128 + r mod 64)]
    else if r <? 65536 then
      [byte_of (224 + r / 4096); byte_of (128 + (r / 64) mod 64); byte_of (128 + r mod 64)]
    else
      [byte_of (240 + r / 262144); byte_of (128 + (r / 4096) mod 64);
       byte_of (128 + (r / 64) mod 64); byte_of (128 + r mod 64)].
Proof.
  intros Hmax Hs. unfold utf8.EncodeRune, utf8.MaxRune.
  assert (Hg : (1114111 <? r) || (55296 <=? r) && (r <=? 57343) = false).
  { destruct (N.ltb_spec 1114111 r), (N.leb_spec 55296 r), (N.leb_spec r 57343);
      cbn; try reflexivity; lia. }
  now rewrite Hg.
Qed.

Ltac ltb_cases :=
  repeat match goal with
    | |- context [N.ltb ?a ?b] => destruct (N.ltb_spec a b); try lia
    end.

Lemma EncodeRune_2 x y :
  194 <= x <= 223 -> 128 <= y <= 191 ->
  utf8.EncodeRune ((x - 192) * 64 + (y - 128)) = [byte_of x; byte_of y].
Proof.
  intros Hx Hy.
  set (r := (x - 192) * 64 + (y - 128)).
  assert (Hr : 128 <= r < 2048) by (subst r; lia).
  destruct (divmod_unique r 64 (x - 192) (y - 128)) as [Hd Hm]; [lia | subst r; lia |].
  rewrite EncodeRune_scalar by lia. ltb_cases.
  rewrite Hd, Hm. repeat f_equal; lia.
Qed.

Lemma EncodeRune_3 x y z :
  224 <= x <= 239 -> utf8.second_lo x <= y <= utf8.second_hi x -> 128 <= z <= 191 ->
  utf8.EncodeRune ((x - 224) * 4096 + (y - 128) * 64 + (z - 128))
  = [byte_of x; byte_of y; byte_of z].
Proof.
  intros Hx Hy Hz. apply second_range in Hy as (Hy & H224 & H237 & _ & _).
  set (r := (x - 224) * 4096 + (y - 128) * 64 + (z - 128)).
  assert (Hr : 2048 <= r < 65536) by (subst r; lia).
  assert (Hs : r < 55296 \/ 57343 < r) by (subst r; lia).
  destruct (divmod_unique r 4096 (x - 224) ((y - 128) * 64 + (z - 128))) as [Hd _];
    [lia | subst r; lia |].
  destruct (divmod_unique r 64 ((x - 224) * 64 + (y - 128)) (z - 128)) as [Hd2 Hm2];
    [lia | subst r; lia |].
  destruct (divmod_unique ((x - 224) * 64 + (y - 128)) 64 (x - 224) (y - 128)) as [_ Hm3];
    [lia | lia |].
  rewrite EncodeRune_scalar by lia. ltb_cases.
  rewrite Hd, Hd2, Hm2, Hm3; repeat f_equal; lia.
Qed.

Lemma EncodeRune_4 x y z w :
  240 <= x <= 244 -> utf8.second_lo x <= y <= utf8.second_hi x ->
  128 <= z <= 191 -> 128 <= w <= 191 ->
  utf8.EncodeRune ((x - 240) * 262144 + (y - 128) * 4096 + (z - 128) * 64 + (w - 128))
  = [byte_of x; byte_of y; byte_of z; byte_of w].
Proof.
  intros Hx Hy Hz Hw. apply second_range in Hy as (Hy & _ & _ & H240 & H244).
  set (r := (x - 240) * 262144 + (y - 128) * 4096 + (z - 128) * 64 + (w - 128)).
  assert (Hr : 65536 <= r <= 1114111) by (subst r; lia).
  destruct (divmod_unique r 262144 (x - 240)
              ((y - 128) * 4096 + (z - 128) * 64 + (w - 128))) as [Hd _];
    [lia | subst r; lia |].
  destruct (divmod_unique r 4096 ((x - 240) * 64 + (y - 128))
              ((z - 128) * 64 + (w - 128))) as [Hd2 _];
    [lia | subst r; lia |].
  destruct (divmod_unique ((x - 240) * 64 + (y - 128)) 64 (x - 240) (y - 128)) as [_ Hm2];
    [lia | lia |].
  destruct (divmod_unique r 64 ((x - 240) * 4096 + (y - 128) * 64 + (z - 128))
              (w - 128)) as [Hd3 Hm3];
    [lia | subst r; lia |].
  destruct (divmod_unique ((x - 240) * 4096 + (y - 128) * 64 + (z - 128)) 64
              ((x - 240) * 64 + (y - 128)) (z - 128)) as [_ Hm4];
    [lia | lia |].
  rewrite EncodeRune_scalar by lia. ltb_cases.
  rewrite Hd, Hd2, Hm2, Hd3, Hm3, Hm4; repeat f_equal; lia.
Qed.

(** A well-formed rune of several bytes: the bytes are those
    [EncodeRune] writes for it, and what follows them plays no part. *)
Lemma DecodeRune_wellformed b p r size :
  (byte_val b <? utf8.RuneSelf) = false ->
  utf8.DecodeRune (b :: p) = (r, size) ->
  (r =? utf8.RuneError) && (size =? 1)%nat = false ->
  exists seq rest,
    p = seq ++ rest /\ size = S (length seq) /\ utf8.EncodeRune r = b :: seq
    /\ forall X, utf8.DecodeRune (b :: seq ++ X) = (r, size).
Proof.
  intros Hb Hdec Hok. unfold utf8.DecodeRune in Hdec. rewrite Hb in Hdec.
  assert (Hbad : (utf8.RuneError, 1%nat) = (r, size) -> False).
  { intros [= <- <-]. discriminate Hok. }
  destruct (utf8.in_range 194 223 b) eqn:H2.
  { destruct p as [| b1 p]; [now apply Hbad in Hdec |].
    destruct (utf8.cont b1) eqn:Hc1; [| now apply Hbad in Hdec].
    injection Hdec as <- <-. exists [b1], p. repeat split.
    - apply in_range_spec in H2, Hc1.
      rewrite EncodeRune_2 by assumption. now rewrite !byte_of_val.
    - intros X. unfold utf8.DecodeRune. cbn [app]. now rewrite Hb, H2, Hc1. }
  destruct (utf8.in_range 224 239 b) eqn:H3.
  { destruct p as [| b1 [| b2 p]]; try (now apply Hbad in Hdec).
    destruct (utf8.in_range _ _ b1 && utf8.cont b2) eqn:Hc; [| now apply Hbad in Hdec].
    injection Hdec as <- <-. exists [b1; b2], p. repeat split.
    - apply andb_true_iff in Hc as [Hc1 Hc2].
      apply in_range_spec in H3, Hc1, Hc2.
      rewrite EncodeRune_3 by assumption. now rewrite !byte_of_val.
    - intros X. unfold utf8.DecodeRune. cbn [app]. now rewrite Hb, H2, H3, Hc. }
  destruct (utf8.in_range 240 244 b) eqn:H4; [| now apply Hbad in Hdec].
  destruct p as [| b1 [| b2 [| b3 p]]]; try (now apply Hbad in Hdec).
  destruct (utf8.in_range _ _ b1 && utf8.cont b2 && utf8.cont b3) eqn:Hc;
    [| now apply Hbad in Hdec].
  injection Hdec as <- <-. exists [b1; b2; b3], p. repeat split.
  - apply andb_true_iff in Hc as [Hc Hc3]. apply andb_true_iff in Hc as [Hc1 Hc2].
    apply in_range_spec in H4, Hc1, Hc2, Hc3.
    rewrite EncodeRune_4 by assumption. now rewrite !byte_of_val.
  - intros X. unfold utf8.DecodeRune. cbn [app]. now rewrite Hb, H2, H3, H4, Hc.
Qed.

(** ** Round trip of the string literals *)

(** The three loops that count the bytes of a rune skip them alike. *)
Lemma Valid_from_skip pre p :
  utf8.Valid_from (length pre) (pre ++ p) = utf8.Valid_from 0 p.
Proof. induction pre as [| c pre IH]; [reflexivity | exact IH]. Qed.

Lemma appendString_loop_skip pre p :
  json.appendString_loop (length pre) (pre ++ p) = json.appendString_loop 0 p.
Proof. induction pre as [| c pre IH]; [reflexivity | exact IH]. Qed.

Lemma parse_string_skip pre p :
  json.parse_string (length pre) (pre ++ p) = json.parse_string 0 p.
Proof. induction pre as [| c pre IH]; [reflexivity | exact IH]. Qed.

Lemma Valid_from_cons b p :
  utf8.Valid_from 0 (b :: p) =
    let '(r, size) := utf8.DecodeRune (b :: p) in
    if (r =? utf8.RuneError) && (size =? 1)%nat then false
    else utf8.Valid_from (size - 1) p.
Proof. reflexivity. Qed.

Lemma appendString_loop_cons b rest :
  json.appendString_loop 0 (b :: rest) =
    if byte_val b <? utf8.RuneSelf then json.escape_ascii b ++ json.appendString_loop 0 rest
    else
      let '(c, size) := utf8.DecodeRune (b :: rest) in
      if (c =? utf8.RuneError) && (size =? 1)%nat then
        B "\ufffd" ++ json.appendString_loop 0 rest
      else if (c =? 8232) || (c =? 8233) then
        B "\u202" ++ json.hex_char (c mod 16) :: json.appendString_loop (size - 1) rest
      else firstn size (b :: rest) ++ json.appendString_loop (size - 1) rest.
Proof. reflexivity. Qed.

(** A byte of a rune of several bytes is read as part of that rune. *)
Lemma parse_string_high b s :
  (byte_val b <? utf8.RuneSelf) = false ->
  json.parse_string 0 (b :: s) =
    let '(rr, size) := utf8.DecodeRune (b :: s) in
    json.prepend (utf8.EncodeRune rr) (json.parse_string (size - 1) s).
Proof.
  intros Hb. cbn [json.parse_string].
  assert (Hlt : 128 <= byte_val b) by (now apply N.ltb_ge in Hb).
  assert (Hq : Ascii.eqb b dquote = false).
  { apply Ascii.eqb_neq. intros ->. vm_compute in Hlt. now apply Hlt. }
  assert (Hs : Ascii.eqb b bslash = false).
  { apply Ascii.eqb_neq. intros ->. vm_compute in Hlt. now apply Hlt. }
  assert (Hc : (byte_val b <? 32) = false) by (apply N.ltb_ge; lia).
  now rewrite Hq, Hs, Hc, Hb.
Qed.

(** What the encoder writes for an ASCII byte is read back as that
    byte. *)
Lemma parse_string_escape_ascii b s :
  (byte_val b <? utf8.RuneSelf) = true ->
  json.parse_string 0 (json.escape_ascii b ++ s) =
    json.prepend [b] (json.parse_string 0 s).
Proof.
  destruct b as [b0 b1 b2 b3 b4 b5 b6 []]; intros Hb.
  - destruct b0, b1, b2, b3, b4, b5, b6; discriminate Hb.
  - clear Hb. destruct b0, b1, b2, b3, b4, b5, b6; reflexivity.
Qed.

Lemma parse_string_line_separator r s :
  (r =? 8232) || (r =? 8233) = true ->
  json.parse_string 0 (B "\u202" ++ json.hex_char (r mod 16) :: s) =
    json.prepend (utf8.EncodeRune r) (json.parse_string 0 s).
Proof.
  intros Hr. apply orb_true_iff in Hr as [Hr | Hr]; apply N.eqb_eq in Hr; subst r;
    reflexivity.
Qed.

Lemma DecodeRune_ascii b p :
  (byte_val b <? utf8.RuneSelf) = true ->
  utf8.DecodeRune (b :: p) = (byte_val b, 1%nat).
Proof. intros Hb. unfold utf8.DecodeRune. now rewrite Hb. Qed.

(** The text the encoder writes for a well-formed string, closed by a
    quote, is read back as that string. *)
Lemma parse_string_appendString v rest :
  utf8.Valid v = true ->
  json.parse_string 0 (json.appendString_loop 0 v ++ dquote :: rest) = Some (v, rest).
Proof.
  unfold utf8.Valid.
  assert (Hall : forall n v, (length v < n)%nat -> utf8.Valid_from 0 v = true ->
            json.parse_string 0 (json.appendString_loop 0 v ++ dquote :: rest)
            = Some (v, rest)).
  { induction n as [| n IH]; intros w Hlen; [lia |].
    destruct w as [| b p]; [reflexivity |].
    rewrite Valid_from_cons, appendString_loop_cons.
    destruct (byte_val b <? utf8.RuneSelf) eqn:Hb.
    - rewrite (DecodeRune_ascii b p Hb).
      assert (Hne : (byte_val b =? utf8.RuneError) = false).
      { apply N.eqb_neq. apply N.ltb_lt in Hb. unfold utf8.RuneSelf, utf8.RuneError in *.
        lia. }
      rewrite Hne. cbn [andb Nat.sub]. intros Hv.
      rewrite <- List.app_assoc, (parse_string_escape_ascii b _ Hb).
      rewrite IH; [reflexivity | cbn in Hlen; lia | exact Hv].
    - destruct (utf8.DecodeRune (b :: p)) as [r size] eqn:Hdec.
      destruct ((r =? utf8.RuneError) && (size =? 1)%nat) eqn:Hok; [discriminate |].
      destruct (DecodeRune_wellformed b p r size Hb Hdec Hok)
        as (seq & p' & -> & -> & Henc & Hdec').
      cbn [Nat.sub]. rewrite Nat.sub_0_r, Valid_from_skip, appendString_loop_skip.
      intros Hv.
      assert (Hp' : json.parse_string 0 (json.appendString_loop 0 p' ++ dquote :: rest)
                    = Some (p', rest)).
      { apply IH; [| exact Hv]. cbn in Hlen. rewrite length_app in Hlen. lia. }
      destruct ((r =? 8232) || (r =? 8233)) eqn:Hls.
      + rewrite <- List.app_assoc. cbn [app].
        rewrite (parse_string_line_separator r _ Hls), Hp'. cbn. now rewrite Henc.
      + cbn [firstn]. rewrite firstn_app, Nat.sub_diag, firstn_all, firstn_O, List.app_nil_r.
        cbn [app]. rewrite <- List.app_assoc.
        rewrite (parse_string_high b _ Hb), Hdec'.
        cbn [Nat.sub]. rewrite Nat.sub_0_r, parse_string_skip, Hp'.
        cbn. now rewrite Henc. }
  intros Hv. apply (Hall (S (length v))); [lia | exact Hv].
Qed.

(** Text without quote, backslash, control or high byte is read as it
    is. *)
Lemma parse_string_plain s rest :
  Forall (fun c => json.htmlSafe c = true) s ->
  json.parse_string 0 (s ++ dquote :: rest) = Some (s, rest).
Proof.
  induction 1 as [| c s Hc _ IH]; [reflexivity |].
  assert (Hesc : json.escape_ascii c = [c]) by (unfold json.escape_ascii; now rewrite Hc).
  assert (Hb : (byte_val c <? utf8.RuneSelf) = true).
  { unfold json.htmlSafe in Hc. rewrite !andb_true_iff in Hc. tauto. }
  change ((c :: s) ++ dquote :: rest) with ([c] ++ (s ++ dquote :: rest)).
  rewrite <- Hesc, (parse_string_escape_ascii c _ Hb), IH. reflexivity.
Qed.

(** ** Reading back what [Marshal] writes *)

Lemma skip_ws_nonspace c s : json.is_space c = false -> json.skip_ws (c :: s) = c :: s.
Proof. intros Hc. cbn. now rewrite Hc. Qed.

Lemma parse_value_object f depth s :
  depth < json.maxNestingDepth ->
  json.parse_value (S f) depth ("{"%char :: dquote :: s) =
    match json.parse_members f (depth + 1) (dquote :: s) with
    | Some (ms, r) => Some (json.JObject ms, r)
    | None => None
    end.
Proof.
  intros Hd. apply N.leb_gt in Hd. cbn [json.parse_value].
  rewrite Ascii.eqb_refl, Hd. reflexivity.
Qed.

Lemma parse_value_string f depth s str r :
  json.parse_string 0 s = Some (str, r) ->
  json.parse_value (S f) depth (dquote :: s) = Some (json.JString str, r).
Proof. intros Hs. cbn [json.parse_value]. cbn. now rewrite Hs. Qed.

Lemma digit_first c :
  json.is_digit c = true ->
  json.is_space c = false
  /\ forall f depth s,
       json.parse_value (S f) depth (c :: s) =
         match json.scan_number (c :: s) with
         | Some (lit, r) => Some (json.JNumber lit, r)
         | None => None
         end.
Proof.
  destruct c as [[] [] [] [] [] [] [] []]; intros Hc; try discriminate Hc;
    split; reflexivity.
Qed.

Lemma parse_members_more f depth s key X v Y ms r :
  json.parse_string 0 s = Some (key, ":"%char :: X) ->
  json.parse_value f depth (json.skip_ws X) = Some (v, ","%char :: Y) ->
  json.parse_members f depth (json.skip_ws Y) = Some (ms, r) ->
  json.parse_members (S f) depth (dquote :: s) = Some ((key, v) :: ms, r).
Proof.
  intros Hk Hv Hms. cbn [json.parse_members].
  rewrite Ascii.eqb_refl, Hk, skip_ws_nonspace by reflexivity.
  rewrite Ascii.eqb_refl, Hv, skip_ws_nonspace by reflexivity.
  rewrite Ascii.eqb_refl, Hms. reflexivity.
Qed.

Lemma parse_members_last f depth s key X v r :
  json.parse_string 0 s = Some (key, ":"%char :: X) ->
  json.parse_value f depth (json.skip_ws X) = Some (v, "}"%char :: r) ->
  json.parse_members (S f) depth (dquote :: s) = Some ([(key, v)], r).
Proof.
  intros Hk Hv. cbn [json.parse_members].
  rewrite Ascii.eqb_refl, Hk, skip_ws_nonspace by reflexivity.
  rewrite Ascii.eqb_refl, Hv, skip_ws_nonspace by reflexivity.
  reflexivity.
Qed.

Lemma appendUint_head n :
  exists c ds, json.appendUint n = c :: ds /\ json.is_digit c = true.
Proof.
  rewrite appendUint_string.
  pose proof (digits_of_uint (N.to_uint n)) as Hd.
  pose proof (to_uint_nonnil n) as Hn.
  destruct (N.to_uint n); try congruence;
    cbn in *; eexists; eexists; (split; [reflexivity | now inversion Hd]).
Qed.

Lemma parse_value_appendUint f depth n c rest :
  ends_number c ->
  json.parse_value (S f) depth (json.skip_ws (json.appendUint n ++ c :: rest))
  = Some (json.JNumber (json.appendUint n), c :: rest).
Proof.
  intros Hc. pose proof (scan_number_appendUint n c rest Hc) as Hs.
  destruct (appendUint_head n) as (d & ds & Hn & Hd). rewrite Hn in *.
  destruct (digit_first d Hd) as [Hsp Hpv].
  cbn [app] in *. rewrite (skip_ws_nonspace d _ Hsp), Hpv, Hs. reflexivity.
Qed.

Lemma parse_key name rest :
  Forall (fun c => json.htmlSafe c = true) (B name) ->
  json.parse_string 0 (B name ++ dquote :: rest) = Some (B name, rest).
Proof. apply parse_string_plain. Qed.

(** The document of a [persistentState] whose vote is well-formed
    UTF-8. *)
Lemma parse_persistentState t v buf :
  utf8.Valid (B v) = true ->
  json.Marshal_persistentState {| CurrentTerm := t; VotedFor := v |} = Ok buf ->
  json.parse buf =
    Some (json.JObject [(B "CurrentTerm", json.JNumber (json.appendUint t));
                        (B "VotedFor", json.JString (B v))]).
Proof.
  intros Hv [= <-]. unfold json.parse, json.field_name, json.appendString.
  cbn [CurrentTerm VotedFor].
  rewrite skip_ws_nonspace by reflexivity.
  set (fuel := length _).
  assert (Hfuel : exists f, fuel = S (S (S f))).
  { subst fuel. cbn [length app]. eexists. reflexivity. }
  destruct Hfuel as [f ->].
  cbn [app]. rewrite parse_value_object by reflexivity.
  erewrite parse_members_more; cycle 1.
  - rewrite <- ?List.app_assoc. cbn [app].
    apply (parse_key "CurrentTerm"). repeat constructor.
  - apply parse_value_appendUint. repeat split.
  - rewrite skip_ws_nonspace by reflexivity.
    eapply parse_members_last.
    + rewrite <- ?List.app_assoc. cbn [app].
      apply (parse_key "VotedFor"). repeat constructor.
    + rewrite skip_ws_nonspace by reflexivity.
      apply parse_value_string.
      rewrite <- ?List.app_assoc. cbn [app]. now apply parse_string_appendString.
  - reflexivity.
Qed.

(** The document of an [envelope] with both slices set. *)
Lemma parse_envelope sha data buf :
  json.Marshal_envelope {| SHA := Some sha; Data := Some data |} = Ok buf ->
  json.parse buf =
    Some (json.JObject [(B "SHA", json.JString (base64.EncodeToString sha));
                        (B "Data", json.JString (base64.EncodeToString data))]).
Proof.
  intros [= <-]. unfold json.parse, json.field_name, json.appendBytes.
  cbn [SHA Data].
  rewrite skip_ws_nonspace by reflexivity.
  set (fuel := length _).
  assert (Hfuel : exists f, fuel = S (S (S f))).
  { subst fuel. cbn [length app]. eexists. reflexivity. }
  destruct Hfuel as [f ->].
  assert (Hsafe : forall l, Forall (fun c => json.htmlSafe c = true) (base64.EncodeToString l)).
  { intros l. eapply List.Forall_impl; [| apply EncodeToString_text]. now intros c [_ Hc]. }
  cbn [app]. rewrite parse_value_object by reflexivity.
  erewrite parse_members_more; cycle 1.
  - rewrite <- ?List.app_assoc. cbn [app].
    apply (parse_key "SHA"). repeat constructor.
  - rewrite skip_ws_nonspace by reflexivity.
    apply parse_value_string.
    rewrite <- ?List.app_assoc. cbn [app]. apply parse_string_plain, Hsafe.
  - rewrite skip_ws_nonspace by reflexivity.
    eapply parse_members_last.
    + rewrite <- ?List.app_assoc. cbn [app].
      apply (parse_key "Data"). repeat constructor.
    + rewrite skip_ws_nonspace by reflexivity.
      apply parse_value_string.
      rewrite <- ?List.app_assoc. cbn [app]. apply parse_string_plain, Hsafe.
  - reflexivity.
Qed.

Lemma Unmarshal_Marshal_envelope sha data buf env0 :
  json.Marshal_envelope {| SHA := Some sha; Data := Some data |} = Ok buf ->
  json.Unmarshal_envelope buf env0 = ({| SHA := Some sha; Data := Some data |}, None).
Proof.
  intros Hm. unfold json.Unmarshal_envelope, json.Unmarshal.
  rewrite (parse_envelope sha data buf Hm). cbn [fold_left].
  unfold json.set_envelope.
  change (json.key_is (B "SHA") "SHA") with true.
  change (json.key_is (B "Data") "SHA") with false.
  change (json.key_is (B "Data") "Data") with true.
  cbn [json.decode_bytes]. rewrite !DecodeString_EncodeToString. reflexivity.
Qed.

Lemma Unmarshal_Marshal_persistentState t v buf ps0 :
  t <= uint64_max -> utf8.Valid (B v) = true ->
  json.Marshal_persistentState {| CurrentTerm := t; VotedFor := v |} = Ok buf ->
  json.Unmarshal_persistentState buf ps0 = ({| CurrentTerm := t; VotedFor := v |}, None).
Proof.
  intros Ht Hv Hm. unfold json.Unmarshal_persistentState, json.Unmarshal.
  rewrite (parse_persistentState t v buf Hv Hm). cbn [fold_left].
  unfold json.set_persistentState.
  change (json.key_is (B "CurrentTerm") "CurrentTerm") with true.
  change (json.key_is (B "VotedFor") "CurrentTerm") with false.
  change (json.key_is (B "VotedFor") "VotedFor") with true.
  cbn [json.decode_uint64 json.decode_string].
  rewrite (ParseUint_appendUint t uint64_max Ht).
  unfold B. rewrite string_of_list_ascii_of_string. reflexivity.
Qed.

Lemma Marshal_nonempty_env env buf : json.Marshal_envelope env = Ok buf -> buf <> [].
Proof. now intros [= <-]. Qed.

(** C1, as stated, fails: [Close] removes the file, so the reopened log
    has nothing to read. *)
Lemma persist_close_reload_fails :
  let l := DefaultLog.NewDefaultLog "log" in
  let '(_, fs1) := DefaultLog.AppendEntry l 3 "node-a" 0 None ∅ in
  let '(_, _, fs2) := DefaultLog.Close l fs1 in
  DefaultLog.LatestEntry (DefaultLog.NewDefaultLog "log") fs2
  <> (3, "node-a"%string, 0, None, None).
Proof. vm_compute. discriminate. Qed.

(** C1, amended.  When [AppendEntry t v] succeeds, for a term of 64 bits
    and a vote that is well-formed UTF-8, a log reopened on the same path
    reads back the term and the vote, index zero, nil information and no
    error, as long as [Close] was not called; after [Close] the file is
    gone and the reopened log returns the error of the read. *)
Theorem persist_reload (l : DefaultLog.t) (t : N) (v : string) (i : N)
    (e : option (list ascii)) (fs fs1 : gmap string (list ascii)) :
  t <= uint64_max ->
  utf8.Valid (B v) = true ->
  DefaultLog.AppendEntry l t v i e fs = (None, fs1) ->
  DefaultLog.LatestEntry (DefaultLog.NewDefaultLog (DefaultLog.path l)) fs1
  = (t, v, 0, None, None)
  /\ (let '(_, _, fs2) := DefaultLog.Close (DefaultLog.NewDefaultLog (DefaultLog.path l)) fs1 in
      DefaultLog.LatestEntry (DefaultLog.NewDefaultLog (DefaultLog.path l)) fs2
      = (0, EmptyString, 0, None, Some (PathError "open" (DefaultLog.path l) ENOENT))).
Proof.
  intros Ht Hv. unfold DefaultLog.AppendEntry.
  destruct (json.Marshal_persistentState _) as [buf | err] eqn:Hps; [| discriminate].
  destruct (json.Marshal_envelope _) as [toWrite | err] eqn:Henv; [| discriminate].
  unfold os.WriteFile. destruct (decide (DefaultLog.path l = EmptyString)) as [| Hpath];
    [discriminate |].
  intros [= <-].
  assert (Hfile : os.file (DefaultLog.path l) (<[DefaultLog.path l := toWrite]> fs)
                  = Some toWrite).
  { unfold os.file. destruct (decide (DefaultLog.path l = EmptyString)); [contradiction |].
    apply lookup_insert_eq. }
  split.
  - unfold DefaultLog.LatestEntry, os.ReadFile, DefaultLog.NewDefaultLog.
    cbn [DefaultLog.path]. rewrite Hfile.
    pose proof (Marshal_nonempty_env _ _ Henv) as Hne.
    destruct toWrite as [| c toWrite]; [congruence |]. cbn [length Nat.leb].
    unfold sha1.Sum in Henv. cbn [slice_data] in Henv.
    rewrite (Unmarshal_Marshal_envelope _ _ _ _ Henv). cbn [SHA Data].
    unfold bytes_Equal, sha1.Sum. cbn [slice_data].
    rewrite bool_decide_eq_true_2 by reflexivity. cbn [negb].
    rewrite (Unmarshal_Marshal_persistentState t v buf _ Ht Hv Hps). reflexivity.
  - unfold DefaultLog.Close, os.Remove, DefaultLog.NewDefaultLog.
    cbn [DefaultLog.path]. rewrite Hfile.
    unfold DefaultLog.LatestEntry, os.ReadFile, os.file. cbn [DefaultLog.path].
    destruct (decide (DefaultLog.path l = EmptyString)); [contradiction |].
    rewrite lookup_delete_eq. reflexivity.
Qed.

(** The vote must be well-formed UTF-8 to be read back: [Marshal] writes
    U+FFFD for a byte that is not. *)
Example persist_reload_needs_utf8 :
  let l := DefaultLog.NewDefaultLog "log" in
  let fs1 := snd (DefaultLog.AppendEntry l 3 (String (byte_of 255) EmptyString) 0 None ∅) in
  DefaultLog.LatestEntry l fs1
  = (3, String (byte_of 239) (String (byte_of 191) (String (byte_of 189) EmptyString)),
     0, None, None).
Proof. vm_compute. reflexivity. Qed.

(** ** Witnesses at concrete inputs *)

Lemma readState_swallows_NoState_witness :
  latest_err (LatestEntry (log (node_on (<["log"%string := []]> ∅)))) = Some LogNoStateErr
  /\ fst (readState (node_on (<["log"%string := []]> ∅))) = None.
Proof.
  split.
  - vm_compute. reflexivity.
  - apply (readState_swallows_NoState (node_on (<["log"%string := []]> ∅))).
    vm_compute. reflexivity.
Defined.

Lemma readState_error_atomic_witness :
  let '(err, n') := readState (node_on ∅) in
  err = Some (PathError "open" "log" ENOENT)
  /\ term n' = 5 /\ vote n' = "node-b"%string
  /\ lastIndex n' = 0 /\ logInfo n' = None.
Proof.
  apply (readState_error_atomic (node_on ∅) (PathError "open" "log" ENOENT)).
  - vm_compute. reflexivity.
  - discriminate.
Defined.

Lemma persist_reload_witness :
  let l := DefaultLog.NewDefaultLog "log" in
  let fs1 := snd (DefaultLog.AppendEntry l 3 "node-a" 7 (Some (B "entry")) ∅) in
  DefaultLog.LatestEntry (DefaultLog.NewDefaultLog "log") fs1
  = (3, "node-a"%string, 0, None, None)
  /\ (let '(_, _, fs2) := DefaultLog.Close (DefaultLog.NewDefaultLog "log") fs1 in
      DefaultLog.LatestEntry (DefaultLog.NewDefaultLog "log") fs2
      = (0, EmptyString, 0, None, Some (PathError "open" "log" ENOENT))).
Proof.
  apply (persist_reload (DefaultLog.NewDefaultLog "log") 3 "node-a" 7 (Some (B "entry")) ∅).
  - vm_compute. discriminate.
  - vm_compute. reflexivity.
  - vm_compute. reflexivity.
Defined.

(* ===================================================================== *)
(** * Further properties                                                  *)
(* ===================================================================== *)

(** ** The string literals of any vote *)

Lemma coerce_from_skip pre p : coerce_from (length pre) (pre ++ p) = coerce_from 0 p.
Proof. induction pre as [| c pre IH]; [reflexivity | exact IH]. Qed.

Lemma coerce_from_cons b p :
  coerce_from 0 (b :: p) =
    let '(r, size) := utf8.DecodeRune (b :: p) in
    if (r =? utf8.RuneError) && (size =? 1)%nat
    then utf8.EncodeRune utf8.RuneError ++ coerce_from 0 p
    else firstn size (b :: p) ++ coerce_from (size - 1) p.
Proof. reflexivity. Qed.

Lemma parse_string_replacement s :
  json.parse_string 0 (B "\ufffd" ++ s) =
    json.prepend (utf8.EncodeRune utf8.RuneError) (json.parse_string 0 s).
Proof. reflexivity. Qed.

(** The text the encoder writes for any string, closed by a quote, is
    read back as the coerced string. *)
Lemma parse_string_appendString_any v rest :
  json.parse_string 0 (json.appendString_loop 0 v ++ dquote :: rest)
  = Some (coerce_from 0 v, rest).
Proof.
  assert (Hall : forall n v, (length v < n)%nat ->
            json.parse_string 0 (json.appendString_loop 0 v ++ dquote :: rest)
            = Some (coerce_from 0 v, rest)).
  { induction n as [| n IH]; intros w Hlen; [lia |].
    destruct w as [| b p]; [reflexivity |].
    rewrite coerce_from_cons, appendString_loop_cons.
    destruct (byte_val b <? utf8.RuneSelf) eqn:Hb.
    - rewrite (DecodeRune_ascii b p Hb).
      assert (Hne : (byte_val b =? utf8.RuneError) = false).
      { apply N.eqb_neq. apply N.ltb_lt in Hb. unfold utf8.RuneSelf, utf8.RuneError in *.
        lia. }
      rewrite Hne. cbn [andb Nat.sub firstn app].
      rewrite <- List.app_assoc, (parse_string_escape_ascii b _ Hb).
      rewrite IH; [reflexivity | cbn in Hlen; lia].
    - destruct (utf8.DecodeRune (b :: p)) as [r size] eqn:Hdec.
      destruct ((r =? utf8.RuneError) && (size =? 1)%nat) eqn:Hok.
      + rewrite <- List.app_assoc, parse_string_replacement.
        rewrite IH; [reflexivity | cbn in Hlen; lia].
      + destruct (DecodeRune_wellformed b p r size Hb Hdec Hok)
          as (seq & p' & -> & -> & Henc & Hdec').
        cbn [Nat.sub]. rewrite Nat.sub_0_r, coerce_from_skip, appendString_loop_skip.
        assert (Hp' : json.parse_string 0 (json.appendString_loop 0 p' ++ dquote :: rest)
                      = Some (coerce_from 0 p', rest)).
        { apply IH. cbn in Hlen. rewrite length_app in Hlen. lia. }
        assert (Hfirst : firstn (S (length seq)) (b :: seq ++ p') = b :: seq).
        { cbn [firstn]. now rewrite firstn_app, Nat.sub_diag, firstn_all, firstn_O,
            List.app_nil_r. }
        rewrite Hfirst.
        destruct ((r =? 8232) || (r =? 8233)) eqn:Hls.
        * rewrite <- List.app_assoc. cbn [app].
          rewrite (parse_string_line_separator r _ Hls), Hp'. cbn. now rewrite Henc.
        * cbn [app]. rewrite <- List.app_assoc.
          rewrite (parse_string_high b _ Hb), Hdec'.
          cbn [Nat.sub]. rewrite Nat.sub_0_r, parse_string_skip, Hp'.
          cbn. now rewrite Henc. }
  apply (Hall (S (length v))). lia.
Qed.

Lemma coerce_from_valid v : utf8.Valid v = true -> coerce_from 0 v = v.
Proof.
  intros Hv.
  pose proof (parse_string_appendString v [] Hv) as H1.
  pose proof (parse_string_appendString_any v []) as H2.
  congruence.
Qed.

Lemma Valid_from_cons_ascii b p :
  (byte_val b <? utf8.RuneSelf) = true ->
  utf8.Valid_from 0 (b :: p) = utf8.Valid_from 0 p.
Proof.
  intros Hb. rewrite Valid_from_cons, (DecodeRune_ascii b p Hb).
  assert (Hne : (byte_val b =? utf8.RuneError) = false).
  { apply N.eqb_neq. apply N.ltb_lt in Hb. unfold utf8.RuneSelf, utf8.RuneError in *. lia. }
  now rewrite Hne.
Qed.

(** What is read back is well-formed UTF-8. *)
Lemma coerce_from_Valid v : utf8.Valid (coerce_from 0 v) = true.
Proof.
  unfold utf8.Valid.
  assert (Hall : forall n v, (length v < n)%nat ->
            utf8.Valid_from 0 (coerce_from 0 v) = true).
  { induction n as [| n IH]; intros w Hlen; [lia |].
    destruct w as [| b p]; [reflexivity |].
    rewrite coerce_from_cons.
    destruct (byte_val b <? utf8.RuneSelf) eqn:Hb.
    - rewrite (DecodeRune_ascii b p Hb).
      assert (Hne : (byte_val b =? utf8.RuneError) = false).
      { apply N.eqb_neq. apply N.ltb_lt in Hb. unfold utf8.RuneSelf, utf8.RuneError in *.
        lia. }
      rewrite Hne. cbn [andb Nat.sub firstn app].
      rewrite (Valid_from_cons_ascii b _ Hb). apply IH. cbn in Hlen. lia.
    - destruct (utf8.DecodeRune (b :: p)) as [r size] eqn:Hdec.
      destruct ((r =? utf8.RuneError) && (size =? 1)%nat) eqn:Hok.
      + change (utf8.Valid_from 0 (utf8.EncodeRune utf8.RuneError ++ coerce_from 0 p))
          with (utf8.Valid_from 0 (coerce_from 0 p)).
        apply IH. cbn in Hlen. lia.
      + destruct (DecodeRune_wellformed b p r size Hb Hdec Hok)
          as (seq & p' & -> & -> & Henc & Hdec').
        cbn [Nat.sub]. rewrite Nat.sub_0_r, coerce_from_skip.
        assert (Hfirst : firstn (S (length seq)) (b :: seq ++ p') = b :: seq).
        { cbn [firstn]. now rewrite firstn_app, Nat.sub_diag, firstn_all, firstn_O,
            List.app_nil_r. }
        rewrite Hfirst. cbn [app]. rewrite Valid_from_cons, Hdec', Hok.
        cbn [Nat.sub]. rewrite Nat.sub_0_r, Valid_from_skip.
        apply IH. cbn in Hlen. rewrite length_app in Hlen. lia. }
  apply (Hall (S (length (v)))). lia.
Qed.

(** ** What [AppendEntry] writes *)

Lemma AppendEntry_unfold l t v i e (fs : gmap string (list ascii)) :
  DefaultLog.AppendEntry l t v i e fs = os.WriteFile (DefaultLog.path l) (document t v) fs.
Proof. reflexivity. Qed.

Lemma document_Marshal t v :
  json.Marshal_envelope
    {| SHA := Some (payload t v ++ sha1.checkSum []); Data := Some (payload t v) |}
  = Ok (document t v).
Proof. reflexivity. Qed.

Lemma document_nonempty t v : exists c d, document t v = c :: d.
Proof. eexists. eexists. reflexivity. Qed.

Lemma parse_payload t v :
  json.parse (payload t v) =
    Some (json.JObject [(B "CurrentTerm", json.JNumber (json.appendUint t));
                        (B "VotedFor", json.JString (coerce_from 0 (B v)))]).
Proof.
  unfold payload, json.Marshal_persistentState, json.parse, json.field_name,
    json.appendString.
  cbn [CurrentTerm VotedFor].
  rewrite skip_ws_nonspace by reflexivity.
  set (fuel := length _).
  assert (Hfuel : exists f, fuel = S (S (S f))).
  { subst fuel. cbn [length app]. eexists. reflexivity. }
  destruct Hfuel as [f ->].
  cbn [app]. rewrite parse_value_object by reflexivity.
  erewrite parse_members_more; cycle 1.
  - rewrite <- ?List.app_assoc. cbn [app].
    apply (parse_key "CurrentTerm"). repeat constructor.
  - apply parse_value_appendUint. repeat split.
  - rewrite skip_ws_nonspace by reflexivity.
    eapply parse_members_last.
    + rewrite <- ?List.app_assoc. cbn [app].
      apply (parse_key "VotedFor"). repeat constructor.
    + rewrite skip_ws_nonspace by reflexivity.
      apply parse_value_string.
      rewrite <- ?List.app_assoc. cbn [app]. apply parse_string_appendString_any.
  - reflexivity.
Qed.

Lemma Unmarshal_payload t v ps0 :
  t <= uint64_max ->
  json.Unmarshal_persistentState (payload t v) ps0
  = ({| CurrentTerm := t; VotedFor := coerce v |}, None).
Proof.
  intros Ht. unfold json.Unmarshal_persistentState, json.Unmarshal.
  rewrite parse_payload. cbn [fold_left].
  unfold json.set_persistentState.
  change (json.key_is (B "CurrentTerm") "CurrentTerm") with true.
  change (json.key_is (B "VotedFor") "CurrentTerm") with false.
  change (json.key_is (B "VotedFor") "VotedFor") with true.
  cbn [json.decode_uint64 json.decode_string].
  rewrite (ParseUint_appendUint t uint64_max Ht). reflexivity.
Qed.

Lemma Unmarshal_document t v env0 :
  json.Unmarshal_envelope (document t v) env0
  = ({| SHA := Some (payload t v ++ sha1.checkSum []); Data := Some (payload t v) |}, None).
Proof. apply Unmarshal_Marshal_envelope, document_Marshal. Qed.

(** A log whose file is the document of [t] and [v] reads them back. *)
Lemma LatestEntry_document l (fs : gmap string (list ascii)) t v :
  t <= uint64_max ->
  os.file (DefaultLog.path l) fs = Some (document t v) ->
  DefaultLog.LatestEntry l fs = (t, coerce v, 0, None, None).
Proof.
  intros Ht Hfile. unfold DefaultLog.LatestEntry, os.ReadFile. rewrite Hfile.
  destruct (document_nonempty t v) as (c & d & Hd).
  rewrite Hd. cbn [length Nat.leb]. rewrite <- Hd.
  rewrite Unmarshal_document. cbn [SHA Data].
  unfold bytes_Equal, sha1.Sum. cbn [slice_data sha1.written sha1.New].
  rewrite bool_decide_eq_true_2 by reflexivity. cbn [negb].
  rewrite (Unmarshal_payload t v _ Ht). reflexivity.
Qed.

Lemma file_insert_eq name data (fs : gmap string (list ascii)) :
  name <> EmptyString -> os.file name (<[name := data]> fs) = Some data.
Proof.
  intros Hn. unfold os.file. destruct (decide (name = EmptyString)); [contradiction |].
  apply lookup_insert_eq.
Qed.

Lemma file_delete_eq name (fs : gmap string (list ascii)) :
  os.file name (delete name fs) = None.
Proof.
  unfold os.file. destruct (decide (name = EmptyString)); [reflexivity |].
  apply lookup_delete_eq.
Qed.

Lemma LatestEntry_cases l fs : LatestEntry_case l fs (DefaultLog.LatestEntry l fs).
Proof.
  unfold DefaultLog.LatestEntry, os.ReadFile.
  destruct (os.file (DefaultLog.path l) fs) as [buf |] eqn:Hfile; [| now constructor].
  destruct buf as [| c buf]; [now constructor |]. cbn [length Nat.leb].
  destruct (json.Unmarshal_envelope _ _) as [env [e |]] eqn:Henv.
  { eapply case_bad_envelope; eauto; discriminate. }
  destruct (bytes_Equal _ _) eqn:Hsha; cbn [negb].
  - destruct (json.Unmarshal_persistentState _ _) as [ps [e |]] eqn:Hps.
    + eapply case_bad_payload; eauto; discriminate.
    + eapply case_entry; eauto; discriminate.
  - eapply case_corrupt; eauto; discriminate.
Qed.

Lemma Unmarshal_envelope_json data x :
  json_error (snd (json.Unmarshal_envelope data x)).
Proof. apply Unmarshal_json, set_envelope_json. Qed.

Lemma Unmarshal_persistentState_json data x :
  json_error (snd (json.Unmarshal_persistentState data x)).
Proof. apply Unmarshal_json, set_persistentState_json. Qed.

(** The term a document sets is a [uint64]. *)
Lemma Unmarshal_persistentState_bound data x :
  CurrentTerm x <= uint64_max ->
  CurrentTerm (fst (json.Unmarshal_persistentState data x)) <= uint64_max.
Proof.
  intros Hx. unfold json.Unmarshal_persistentState, json.Unmarshal.
  destruct (json.parse data) as [[| | | | |ms] |]; cbn [fst]; auto.
  assert (Hacc : CurrentTerm (fst (x, @None error)) <= uint64_max) by exact Hx.
  revert Hacc. generalize (x, @None error).
  induction ms as [| [key v] ms IH]; intros [ps saved] Hacc; cbn [fold_left]; auto.
  apply IH. unfold json.set_persistentState.
  destruct (json.key_is key "CurrentTerm").
  - destruct v; cbn; auto.
    unfold json.ParseUint.
    destruct (NilZero.uint_of_string _); cbn; auto.
    destruct (N.leb_spec (N.of_uint u) uint64_max); cbn; auto.
  - destruct (json.key_is key "VotedFor"); [| exact Hacc].
    destruct (json.decode_string v (VotedFor ps)). exact Hacc.
Qed.

(** ** More on the default log *)

(** X1.  Only one entry is held: an [AppendEntry] after another leaves
    the file system, and returns, as if the first had not been made. *)
Theorem AppendEntry_last_write_wins (l : DefaultLog.t) (t1 t2 : N) (v1 v2 : string)
    (i1 i2 : N) (e1 e2 : option (list ascii)) (fs : gmap string (list ascii)) :
  let '(_, fs1) := DefaultLog.AppendEntry l t1 v1 i1 e1 fs in
  DefaultLog.AppendEntry l t2 v2 i2 e2 fs1 = DefaultLog.AppendEntry l t2 v2 i2 e2 fs.
Proof.
  rewrite (AppendEntry_unfold l t1). unfold os.WriteFile.
  destruct (decide (DefaultLog.path l = EmptyString)) as [Hp | Hp]; [reflexivity |].
  rewrite !AppendEntry_unfold. unfold os.WriteFile.
  destruct (decide (DefaultLog.path l = EmptyString)); [contradiction |].
  f_equal. apply insert_insert_eq.
Qed.

(** X3.  [Close] always forgets the path.  When it returns nil there was
    a file at the path and none is left; when it returns an error the
    file system is as it was. *)
Theorem Close_removes_file (l : DefaultLog.t) (fs : gmap string (list ascii)) :
  let '(err, l', fs') := DefaultLog.Close l fs in
  DefaultLog.path l' = EmptyString
  /\ match err with
     | None => os.file (DefaultLog.path l) fs <> None
               /\ os.file (DefaultLog.path l) fs' = None
     | Some _ => fs' = fs
     end.
Proof.
  unfold DefaultLog.Close, os.Remove.
  destruct (os.file (DefaultLog.path l) fs) as [data |] eqn:Hfile.
  - repeat split; [discriminate | apply file_delete_eq].
  - repeat split.
Qed.

(** X4.  [LatestEntry] never reports history, and returns a zero term and
    an empty vote with every error. *)
Theorem LatestEntry_zero_values (l : DefaultLog.t) (fs : gmap string (list ascii)) :
  let '(t, v, i, info, err) := DefaultLog.LatestEntry l fs in
  i = 0 /\ info = None /\ (err <> None -> t = 0 /\ v = EmptyString).
Proof.
  destruct (LatestEntry_cases l fs); repeat split; congruence.
Qed.

(** X5.  [LatestEntry] returns [LogNoStateErr] exactly when the file
    exists and is empty. *)
Theorem LatestEntry_NoState_iff (l : DefaultLog.t) (fs : gmap string (list ascii)) :
  snd (DefaultLog.LatestEntry l fs) = Some LogNoStateErr
  <-> os.file (DefaultLog.path l) fs = Some [].
Proof.
  destruct (LatestEntry_cases l fs) as [Hf | Hf | buf env e Hf Hne He | buf env Hf Hne
                                       | buf env ps e Hf Hne _ _ He | buf env ps Hf Hne];
    cbn [snd]; split; intros Hgoal; try congruence.
  - pose proof (Unmarshal_envelope_json buf {| SHA := None; Data := None |}) as Hj.
    rewrite He in Hj. cbn in Hj. injection Hgoal as ->. contradiction.
  - pose proof (Unmarshal_persistentState_json (slice_data (Data env))
                  {| CurrentTerm := 0; VotedFor := EmptyString |}) as Hj.
    rewrite He in Hj. cbn in Hj. injection Hgoal as ->. contradiction.
Qed.

(** X6.  [LatestEntry] returns the error of the read exactly when the
    path names no file. *)
Theorem LatestEntry_PathError_iff (l : DefaultLog.t) (fs : gmap string (list ascii)) :
  snd (DefaultLog.LatestEntry l fs) = Some (PathError "open" (DefaultLog.path l) ENOENT)
  <-> os.file (DefaultLog.path l) fs = None.
Proof.
  destruct (LatestEntry_cases l fs) as [Hf | Hf | buf env e Hf Hne He | buf env Hf Hne
                                       | buf env ps e Hf Hne _ _ He | buf env ps Hf Hne];
    cbn [snd]; split; intros Hgoal; try congruence.
  - pose proof (Unmarshal_envelope_json buf {| SHA := None; Data := None |}) as Hj.
    rewrite He in Hj. cbn in Hj. injection Hgoal as ->. contradiction.
  - pose proof (Unmarshal_persistentState_json (slice_data (Data env))
                  {| CurrentTerm := 0; VotedFor := EmptyString |}) as Hj.
    rewrite He in Hj. cbn in Hj. injection Hgoal as ->. contradiction.
Qed.

(** X7.  [LatestEntry] returns [LogCorruptErr] exactly when the file is
    not empty, holds an envelope, and the check value recomputed from the
    payload is not the stored one. *)
Theorem LatestEntry_Corrupt_iff (l : DefaultLog.t) (fs : gmap string (list ascii)) :
  snd (DefaultLog.LatestEntry l fs) = Some LogCorruptErr
  <-> exists buf env,
        os.file (DefaultLog.path l) fs = Some buf /\ buf <> []
        /\ json.Unmarshal_envelope buf {| SHA := None; Data := None |} = (env, None)
        /\ bytes_Equal (sha1.Sum sha1.New (Data env)) (SHA env) = false.
Proof.
  destruct (LatestEntry_cases l fs) as [Hf | Hf | buf env e Hf Hne He | buf env Hf Hne He Hs
                                       | buf env ps e Hf Hne He Hs Hp
                                       | buf env ps Hf Hne He Hs Hp];
    cbn [snd]; split;
    try (intros (buf' & env' & Hf' & Hne' & He' & Hs'); congruence);
    try discriminate.
  - intros Hgoal.
    pose proof (Unmarshal_envelope_json buf {| SHA := None; Data := None |}) as Hj.
    rewrite He in Hj. cbn in Hj. injection Hgoal as ->. contradiction.
  - intros _. exists buf, env. auto.
  - intros Hgoal.
    pose proof (Unmarshal_persistentState_json (slice_data (Data env))
                  {| CurrentTerm := 0; VotedFor := EmptyString |}) as Hj.
    rewrite Hp in Hj. cbn in Hj. injection Hgoal as ->. contradiction.
Qed.

(** X8.  Whatever the file holds, the term [LatestEntry] returns fits in
    64 bits. *)
Theorem LatestEntry_term_bound (l : DefaultLog.t) (fs : gmap string (list ascii)) :
  let '(t, _, _, _, _) := DefaultLog.LatestEntry l fs in t <= uint64_max.
Proof.
  destruct (LatestEntry_cases l fs) as [| | | | | buf env ps Hf Hne He Hs Hp];
    try (unfold uint64_max; lia).
  pose proof (Unmarshal_persistentState_bound (slice_data (Data env))
                {| CurrentTerm := 0; VotedFor := EmptyString |}) as Hb.
  rewrite Hp in Hb. apply Hb. unfold uint64_max. cbn. lia.
Qed.

(** X9.  For any vote, well-formed or not: when [AppendEntry t v]
    succeeds, [LatestEntry] on the same log returns the term, the vote
    with every byte that is not part of a well-formed rune replaced by
    U+FFFD, index zero, nil information and no error; the vote returned
    is well-formed UTF-8, and is the vote written when that one was. *)
Theorem AppendEntry_LatestEntry_any_vote (l : DefaultLog.t) (t : N) (v : string) (i : N)
    (e : option (list ascii)) (fs fs1 : gmap string (list ascii)) :
  t <= uint64_max ->
  DefaultLog.AppendEntry l t v i e fs = (None, fs1) ->
  DefaultLog.LatestEntry l fs1 = (t, coerce v, 0, None, None)
  /\ utf8.Valid (B (coerce v)) = true
  /\ (utf8.Valid (B v) = true -> coerce v = v).
Proof.
  intros Ht. rewrite AppendEntry_unfold. unfold os.WriteFile.
  destruct (decide (DefaultLog.path l = EmptyString)) as [| Hp]; [discriminate |].
  intros [= <-]. repeat split.
  - apply LatestEntry_document; [exact Ht |]. now apply file_insert_eq.
  - unfold coerce, B. rewrite list_ascii_of_string_of_list_ascii. apply coerce_from_Valid.
  - intros Hv. unfold coerce. rewrite (coerce_from_valid _ Hv).
    apply string_of_list_ascii_of_string.
Qed.

Lemma AppendEntry_LatestEntry_any_vote_witness :
  let l := DefaultLog.NewDefaultLog "log" in
  let v := String (byte_of 255) "a" in
  let fs1 := snd (DefaultLog.AppendEntry l 3 v 0 None ∅) in
  DefaultLog.LatestEntry l fs1 = (3, coerce v, 0, None, None)
  /\ utf8.Valid (B (coerce v)) = true
  /\ (utf8.Valid (B v) = true -> coerce v = v).
Proof.
  apply (AppendEntry_LatestEntry_any_vote (DefaultLog.NewDefaultLog "log") 3
           (String (byte_of 255) "a") 0 None ∅).
  - vm_compute. discriminate.
  - vm_compute. reflexivity.
Defined.

(** X10.  The file [AppendEntry] writes holds an envelope whose payload
    is the document of the term and the vote, and whose check value is
    that payload followed by twenty fixed bytes, the SHA-1 digest of the
    empty input. *)
Theorem AppendEntry_envelope (l : DefaultLog.t) (t : N) (v : string) (i : N)
    (e : option (list ascii)) (fs fs1 : gmap string (list ascii)) :
  DefaultLog.AppendEntry l t v i e fs = (None, fs1) ->
  exists buf,
    os.file (DefaultLog.path l) fs1 = Some buf
    /\ json.Unmarshal_envelope buf {| SHA := None; Data := None |}
       = ({| SHA := Some (payload t v
                          ++ map byte_of [218; 57; 163; 238; 94; 107; 75; 13; 50; 85;
                                          191; 239; 149; 96; 24; 144; 175; 216; 7; 9]);
             Data := Some (payload t v) |}, None)
    /\ json.Marshal_persistentState {| CurrentTerm := t; VotedFor := v |} = Ok (payload t v).
Proof.
  rewrite AppendEntry_unfold. unfold os.WriteFile.
  destruct (decide (DefaultLog.path l = EmptyString)) as [| Hp]; [discriminate |].
  intros [= <-]. exists (document t v). repeat split.
  - now apply file_insert_eq.
  - apply Unmarshal_document.
Qed.

Lemma AppendEntry_envelope_witness :
  exists buf,
    os.file "log" (snd (DefaultLog.AppendEntry (DefaultLog.NewDefaultLog "log") 3 "node-a"
                          0 None ∅)) = Some buf
    /\ json.Unmarshal_envelope buf {| SHA := None; Data := None |}
       = ({| SHA := Some (payload 3 "node-a"
                          ++ map byte_of [218; 57; 163; 238; 94; 107; 75; 13; 50; 85;
                                          191; 239; 149; 96; 24; 144; 175; 216; 7; 9]);
             Data := Some (payload 3 "node-a") |}, None)
    /\ json.Marshal_persistentState {| CurrentTerm := 3; VotedFor := "node-a" |}
       = Ok (payload 3 "node-a").
Proof.
  apply (AppendEntry_envelope (DefaultLog.NewDefaultLog "log") 3 "node-a" 0 None ∅).
  vm_compute. reflexivity.
Defined.

(** X11.  A closed log is of no further use: [LatestEntry] and
    [AppendEntry] on it return the error of the empty path, and
    [AppendEntry] writes nothing. *)
Theorem closed_log_unusable (l : DefaultLog.t) (fs : gmap string (list ascii))
    (t : N) (v : string) (i : N) (e : option (list ascii)) :
  let '(_, l1, fs1) := DefaultLog.Close l fs in
  DefaultLog.LatestEntry l1 fs1
  = (0, EmptyString, 0, None, Some (PathError "open" EmptyString ENOENT))
  /\ DefaultLog.AppendEntry l1 t v i e fs1
     = (Some (PathError "open" EmptyString ENOENT), fs1).
Proof.
  unfold DefaultLog.Close.
  destruct (os.Remove (DefaultLog.path l) fs) as [err fs1]. split; reflexivity.
Qed.

(** ** More on the log of the test suite *)

(** X12.  The log of the test suite keeps its entry through [Close]:
    after [AppendEntry t v] and [Close], [LatestEntry] returns [t], [v],
    the index and entry the log was made with, and no error; the log is
    marked closed. *)
Theorem TestLog_append_close_latest (l : TestLog.t) (t : N) (v : string) (i : N)
    (e : option (list ascii)) :
  let '(_, l1) := TestLog.AppendEntry l t v i e in
  let '(err, l2) := TestLog.Close l1 in
  err = None /\ TestLog.Closed l2 = true
  /\ TestLog.LatestEntry l2 = (t, v, TestLog.LastIndex l, TestLog.LastEntry l, None).
Proof. cbn. repeat split. Qed.

(** X13.  On indexes, [TestLog.LogUpToDate] is reflexive and total, and
    holds both ways only between equal indexes. *)
Theorem TestLog_LogUpToDate_total (l l' : TestLog.t) (i j : N)
    (info info' : option (list ascii)) :
  TestLog.LogUpToDate l i info i info' = true
  /\ (TestLog.LogUpToDate l i info j info' = true
      \/ TestLog.LogUpToDate l' j info' i info = true)
  /\ (TestLog.LogUpToDate l i info j info' = true
      /\ TestLog.LogUpToDate l' j info' i info = true <-> i = j).
Proof.
  unfold TestLog.LogUpToDate.
  rewrite N.eqb_refl.
  destruct (N.eqb_spec i j), (N.eqb_spec j i), (N.ltb_spec i j), (N.ltb_spec j i);
    try lia; intuition (try lia; try discriminate).
Qed.

(** X14.  [TestLog.LogUpToDate] is transitive on indexes. *)
Theorem TestLog_LogUpToDate_trans (l1 l2 l3 : TestLog.t) (i j k : N)
    (a b c d : option (list ascii)) :
  TestLog.LogUpToDate l1 i a j b = true ->
  TestLog.LogUpToDate l2 j c k d = true ->
  TestLog.LogUpToDate l3 i a k d = true.
Proof.
  unfold TestLog.LogUpToDate.
  destruct (N.eqb_spec i j), (N.eqb_spec j k), (N.eqb_spec i k);
    rewrite ?N.ltb_lt; intros; try reflexivity; try discriminate; lia.
Qed.

Lemma TestLog_LogUpToDate_trans_witness :
  TestLog.LogUpToDate (TestLog.NewTestLog 1 None) 1 None 7 (Some (B "x")) = true.
Proof.
  apply (TestLog_LogUpToDate_trans (TestLog.NewTestLog 1 None) (TestLog.NewTestLog 4 None)
           (TestLog.NewTestLog 1 None) 1 4 7 None (Some (B "y")) None (Some (B "x")));
    reflexivity.
Defined.

(** ** More on the node *)

(** X15.  When the log's [LatestEntry] gives no error, or
    [LogNoStateErr], [readState] returns nil and the node takes the term,
    the vote, the index and the log information returned; its log path is
    unchanged. *)
Theorem readState_adopts_entry {L : Type} `{Log L} (n : Node L) (ct : N) (lv : string)
    (li : N) (info : option (list ascii)) (err : option error) (l : L) :
  LatestEntry (log n) = (ct, lv, li, info, err, l) ->
  err = None \/ err = Some LogNoStateErr ->
  readState n =
    (None, {| log := l; logPath := logPath n; term := ct; vote := lv;
              lastIndex := li; logInfo := info |}).
Proof.
  intros Hl Herr. rewrite (readState_unfold n _ _ _ _ _ _ Hl).
  destruct Herr as [-> | ->].
  - rewrite (bool_decide_eq_false_2 (None <> None)) by tauto. reflexivity.
  - rewrite (bool_decide_eq_false_2 (Some LogNoStateErr <> Some LogNoStateErr)) by tauto.
    rewrite andb_false_r. reflexivity.
Qed.

Lemma readState_adopts_entry_witness :
  readState (node_on (<["log"%string := []]> ∅)) =
    (None, {| log := (DefaultLog.NewDefaultLog "log", <["log"%string := []]> ∅);
              logPath := "log"; term := 0; vote := EmptyString;
              lastIndex := 0; logInfo := None |}).
Proof.
  apply (readState_adopts_entry (node_on (<["log"%string := []]> ∅)) 0 EmptyString 0 None
           (Some LogNoStateErr)).
  - vm_compute. reflexivity.
  - right. reflexivity.
Defined.

(** X16.  What a node writes with [writeState] on a default log, any
    node on that log reads back with [readState]: the term, the vote with
    ill-formed bytes replaced by U+FFFD, index zero and nil
    information. *)
Theorem writeState_readState_DefaultLog
    (n n1 n' : Node (DefaultLog.t * gmap string (list ascii))) :
  term n <= uint64_max ->
  writeState n = (None, n1) ->
  log n' = log n1 ->
  readState n' =
    (None, {| log := log n1; logPath := logPath n'; term := term n; vote := coerce (vote n);
              lastIndex := 0; logInfo := None |}).
Proof.
  intros Ht Hw Hlog. unfold writeState in Hw. cbn [AppendEntry DefaultLog_Log] in Hw.
  destruct (log n) as [l fs] eqn:Hn.
  destruct (DefaultLog.AppendEntry l (term n) (vote n) 0 None fs) as [err fs1] eqn:Ha.
  injection Hw as -> <-. cbn [log with_log] in *.
  rewrite AppendEntry_unfold in Ha. unfold os.WriteFile in Ha.
  destruct (decide (DefaultLog.path l = EmptyString)) as [| Hp]; [discriminate |].
  injection Ha as <-.
  assert (Hle : DefaultLog.LatestEntry l (<[DefaultLog.path l := document (term n) (vote n)]> fs)
                = (term n, coerce (vote n), 0, None, None)).
  { apply LatestEntry_document; [exact Ht |]. now apply file_insert_eq. }
  unfold readState. rewrite Hlog. cbn [LatestEntry DefaultLog_Log]. rewrite Hle.
  reflexivity.
Qed.

Lemma writeState_readState_DefaultLog_witness :
  readState (with_log (node_on ∅) (log (snd (writeState (node_on ∅))))) =
    (None, {| log := log (snd (writeState (node_on ∅))); logPath := "log"; term := 5;
              vote := coerce "node-b"; lastIndex := 0; logInfo := None |}).
Proof.
  apply (writeState_readState_DefaultLog (node_on ∅) (snd (writeState (node_on ∅)))
           (with_log (node_on ∅) (log (snd (writeState (node_on ∅)))))).
  - vm_compute. discriminate.
  - vm_compute. reflexivity.
  - reflexivity.
Defined.

(** X17.  [closeLog] on a node of a default log returns what the log's
    [Close] returns, clears the log path and leaves the term, the vote,
    the index and the log information; afterwards [readState] and
    [writeState] return the error of the empty path and change none of
    them. *)
Theorem closeLog_DefaultLog (n : Node (DefaultLog.t * gmap string (list ascii))) :
  let '(err, n1) := closeLog n in
  err = fst (fst (DefaultLog.Close (fst (log n)) (snd (log n))))
  /\ logPath n1 = EmptyString
  /\ (term n1, vote n1, lastIndex n1, logInfo n1) = (term n, vote n, lastIndex n, logInfo n)
  /\ readState n1 = (Some (PathError "open" EmptyString ENOENT), n1)
  /\ writeState n1 = (Some (PathError "open" EmptyString ENOENT), n1).
Proof.
  unfold closeLog. cbn [Close DefaultLog_Log].
  destruct (log n) as [l fs]. cbn [fst snd]. unfold DefaultLog.Close.
  destruct (os.Remove (DefaultLog.path l) fs) as [err fs1]. cbn [fst].
  repeat split.
Qed.

(** X18.  On the log of the test suite, [writeState] then [readState]
    return nil, keep the node's term and vote, and set its index and log
    information to those the log was made with; the log holds the term
    and the vote. *)
Theorem writeState_readState_TestLog (n : Node TestLog.t) :
  let '(e1, n1) := writeState n in
  let '(e2, n2) := readState n1 in
  e1 = None /\ e2 = None
  /\ term n2 = term n /\ vote n2 = vote n
  /\ lastIndex n2 = TestLog.LastIndex (log n) /\ logInfo n2 = TestLog.LastEntry (log n)
  /\ TestLog.Term (log n2) = term n /\ TestLog.VotedFor (log n2) = vote n
  /\ TestLog.LastIndex (log n2) = TestLog.LastIndex (log n)
  /\ TestLog.LastEntry (log n2) = TestLog.LastEntry (log n).
Proof. cbn. repeat split. Qed.

(** X19.  A node that reads its state from a new log of the test suite
    takes the index and the entry the log was made with, term zero and no
    vote. *)
Theorem readState_NewTestLog (n : Node TestLog.t) (lastIndex' : N)
    (lastEntry : option (list ascii)) :
  readState (with_log n (TestLog.NewTestLog lastIndex' lastEntry)) =
    (None, {| log := TestLog.NewTestLog lastIndex' lastEntry; logPath := logPath n;
              term := 0; vote := EmptyString;
              lastIndex := lastIndex'; logInfo := lastEntry |}).
Proof. reflexivity. Qed.

(** X20.  [LatestEntry] reads nothing but the file at the log's path: on
    two file systems that hold the same thing there, it returns the same
    result. *)
Theorem LatestEntry_only_its_file (l : DefaultLog.t) (fs fs' : gmap string (list ascii)) :
  os.file (DefaultLog.path l) fs' = os.file (DefaultLog.path l) fs ->
  DefaultLog.LatestEntry l fs' = DefaultLog.LatestEntry l fs.
Proof. intros Hf. unfold DefaultLog.LatestEntry, os.ReadFile. now rewrite Hf. Qed.

Lemma LatestEntry_only_its_file_witness :
  let l := DefaultLog.NewDefaultLog "log" in
  let fs := snd (DefaultLog.AppendEntry l 3 "node-a" 0 None ∅) in
  DefaultLog.LatestEntry l (<["notes"%string := B "x"]> fs) = DefaultLog.LatestEntry l fs.
Proof.
  apply (LatestEntry_only_its_file (DefaultLog.NewDefaultLog "log")
           (snd (DefaultLog.AppendEntry (DefaultLog.NewDefaultLog "log") 3 "node-a" 0 None ∅))
           (<["notes"%string := B "x"]>
              (snd (DefaultLog.AppendEntry (DefaultLog.NewDefaultLog "log") 3 "node-a"
                      0 None ∅)))).
  vm_compute. reflexivity.
Defined.
